(** * ESocketS: an epoll socket server, embedded and verified

    A shallow embedding of [ESocketS/socket_server.py]: the client registry,
    the raw I/O primitives, the receive dispatch, register / unregister,
    disconnect, the three background stages and the lifecycle operations.

    The server is a Python object whose methods mutate shared state and call
    into the operating system.  Here the state is a record [world]; a method
    is a function [world -> outcome A] that returns a value, raises a Python
    exception or blocks.  Everything a method does that another party can
    observe (a system call on a socket, a selector call, a hook invocation, a
    registry mutation) is appended to the [trace] of the world, in program
    order.

    What the environment does is part of the world as well: every socket
    carries the script of what its reads and sends are going to give.  The
    listening socket has its state in the world (unbound, bound, listening,
    closed); what the system answers to its bind and listen, and what its
    accepts give, comes with the action that makes the call.  The
    threads of the server are interleaved at the level of whole operations:
    a run is a list of [action]s, each of them a stage making progress, a
    dispatch thread running, or a call of the application.  The seven hooks
    are the no-ops of the class; an application that overrides them acts
    through the public operations, which are actions of their own. *)

From stdpp Require Import gmap strings list fin_maps.
From Stdlib Require Import Strings.Byte.

Local Open Scope string_scope.
Local Open Scope list_scope.
Local Open Scope nat_scope.
Local Open Scope stdpp_scope.

(** ** Values *)

(** A connection is a Python socket object; it is compared and hashed by
    identity, which a natural number stands for. *)
Abbreviation conn := nat (only parsing).
Abbreviation lock_id := nat (only parsing).
Abbreviation bytes := (list byte) (only parsing).

Definition address : Type := string * Z.

(** [errno.EAGAIN] and [errno.EWOULDBLOCK] on Linux, the platform of epoll. *)
Definition EAGAIN : Z := 11.
Definition EWOULDBLOCK : Z := 11.

(** A [socket.error] (an [OSError]) as the operating system raises it:
    [e.args[0]] is [err_no], and [str(e)] is [err_text]. *)
Record sockerr := { err_no : Z; err_text : string }.

Inductive key_arg :=
| KeyConn (c : conn)
| KeyMsg (s : string).

(** Python exceptions.  [WouldBlock], [ClientDisconnect] and
    [ClientAbnormalDisconnect] are the classes of [ESocketS.exceptions]. *)
Inductive exn :=
| KeyError (a : key_arg)
| OSError (msg : string)
| SocketError (e : sockerr)
| RuntimeError (msg : string)
| TypeError (msg : string)
| ValueError (msg : string)
| WouldBlock (msg : string)
| ClientDisconnect (msg : string)
| ClientAbnormalDisconnect (msg : string).

(** Modelled from the spec: the module [ESocketS.exceptions] is not part of
    the sources.  The specification lists would-block, clean disconnect and
    abnormal disconnect as three separate signals, so the three classes are
    taken to be unrelated: an [except ClientDisconnect] clause catches
    [ClientDisconnect] only, and [except ClientAbnormalDisconnect] catches
    [ClientAbnormalDisconnect] only. *)
Definition is_ClientDisconnect (e : exn) : bool :=
  match e with ClientDisconnect _ => true | _ => false end.

Definition is_ClientAbnormalDisconnect (e : exn) : bool :=
  match e with ClientAbnormalDisconnect _ => true | _ => false end.

(** [except socket.error]: [socket.error] is [OSError]. *)
Definition is_socket_error (e : exn) : bool :=
  match e with SocketError _ | OSError _ => true | _ => false end.

Definition is_KeyError (e : exn) : bool :=
  match e with KeyError _ => true | _ => false end.

(** ** The client registry *)

(** The only callable ever stored in a client record is the bound method
    [self.recv]. *)
Inductive callback := Bound_recv.

(** [_ClientInfo.__init__] sets exactly these three instance attributes. *)
Record _ClientInfo := {
  address_of : address;
  callback_function : callback;
  callback_args : list conn
}.

(** [send_lock = threading.Lock()] stands in the class body of [_ClientInfo]:
    it is evaluated once, when the class is created, and the one lock object
    becomes an attribute of the class. *)
Definition _ClientInfo_send_lock : lock_id := 0.

(** [client.send_lock]: the instance has no attribute of that name, so the
    lookup continues in the class. *)
Definition send_lock (client : _ClientInfo) : lock_id := _ClientInfo_send_lock.

(** A Python [dict]: keys are unique and keep their insertion order. *)
Section Dict.
Context {V : Type}.

Fixpoint dict_get (c : conn) (d : list (conn * V)) : option V :=
  match d with
  | [] => None
  | (k, v) :: r => if decide (k = c) then Some v else dict_get c r
  end.

Fixpoint dict_set (c : conn) (v : V) (d : list (conn * V)) : list (conn * V) :=
  match d with
  | [] => [(c, v)]
  | (k, x) :: r => if decide (k = c) then (k, v) :: r else (k, x) :: dict_set c v r
  end.

Fixpoint dict_del (c : conn) (d : list (conn * V)) : list (conn * V) :=
  match d with
  | [] => []
  | (k, x) :: r => if decide (k = c) then r else (k, x) :: dict_del c r
  end.

Definition dict_keys (d : list (conn * V)) : list conn := d.*1.
End Dict.

(** ** Sockets, as the environment behaves *)

(** What the kernel holds for the next [conn.recv]: pending bytes (none at all
    is the end of the stream) or a pending error. *)
Inductive rx_item :=
| RxData (bs : bytes)
| RxError (e : sockerr).

(** What the kernel does with the next [conn.send]: take at most [k] bytes,
    or fail. *)
Inductive tx_item :=
| TxAccept (k : nat)
| TxError (e : sockerr).

Record sock := {
  rx : list rx_item;
  tx : list tx_item;
  shutdown_error : option sockerr;
  wire : bytes
}.

Definition fresh_sock : sock :=
  {| rx := []; tx := []; shutdown_error := None; wire := [] |}.

(** ** Hooks, stages, events *)

Inductive hook :=
| on_start
| on_stop (reason : string)
| on_recv (c : conn) (data : bytes)
| on_connect (c : conn)
| on_disconnect (c : conn)
| on_abnormal_disconnect (c : conn) (msg : string)
| on_warning (msg : string).

(** The keys of [self._run_in_subthread]. *)
Inductive policy_key :=
| K_on_recv | K_on_connect | K_on_disconnect | K_on_abnormal_disconnect
| K_on_start | K_on_stop | K_on_warning | K_client_callback.

(** [on_function.__name__] *)
Definition hook_name (h : hook) : policy_key :=
  match h with
  | on_start => K_on_start
  | on_stop _ => K_on_stop
  | on_recv _ _ => K_on_recv
  | on_connect _ => K_on_connect
  | on_disconnect _ => K_on_disconnect
  | on_abnormal_disconnect _ _ => K_on_abnormal_disconnect
  | on_warning _ => K_on_warning
  end.

(** The keys of [self._serve_threads] and [self._stop_events]. *)
Inductive stage := S_recv | S_accept | S_handle_connects.

Global Instance stage_eq_dec : EqDecision stage.
Proof. solve_decision. Defined.

Global Instance policy_key_eq_dec : EqDecision policy_key.
Proof. solve_decision. Defined.

(** [dict.values()] of [self._stop_events], in insertion order. *)
Definition all_stages : list stage := [S_recv; S_accept; S_handle_connects].

Inductive run_mode := Inline | Threaded.

(** A thread started by the dispatch loop.  [th_key] is [key.fileobj] of the
    readiness report that started it; the Python [Thread] object itself only
    holds the target and its arguments. *)
Record thread := {
  th_key : conn;
  th_target : callback;
  th_args : list conn
}.

Inductive event :=
| EvHook (m : run_mode) (h : hook)
| EvDispatch (m : run_mode) (c : conn) (f : callback) (args : list conn)
| EvSelRegister (c : conn) (ok : bool)
| EvSelUnregister (c : conn) (ok : bool)
| EvSockRecv (c : conn) (size : nat)
| EvSockSend (c : conn) (buf : bytes) (sent : option nat)
| EvSockShutdown (c : conn) (ok : bool)
| EvSockClose (c : conn)
| EvSetBlocking (c : conn) (flag : bool)
| EvClientsSet (c : conn)
| EvClientsDel (c : conn)
| EvClientsClear
| EvStartedFlag
| EvStopSignal
| EvStageSet (s : stage)
| EvWait (s : stage)
| EvServerBind (ok : bool)
| EvServerListen (ok : bool)
| EvStageStart (s : stage)
| EvServerShutdown (ok : bool)
| EvServerClose
| EvLockAcquire (l : lock_id)
| EvLockRelease (l : lock_id).

(** ** The world *)

(** The listening socket [_server_socket]: made when the class body runs,
    bound and put to listen by [start], shut down and closed by [stop]. *)
Inductive listener := Unbound | Bound | Listening | Closed.

Record world := {
  clients : list (conn * _ClientInfo);
  _started : bool;
  _stop_signal : bool;
  _accept_queue : list (conn * address);
  _epoll : gmap nat (callback * list conn);
  _server_socket : listener;
  _run_in_subthread : policy_key -> bool;
  _stop_events : stage -> bool;
  locked : list lock_id;
  socks : gmap nat sock;
  threads : list thread;
  trace : list event
}.

Definition set_clients (x : list (conn * _ClientInfo)) (w : world) : world :=
  {| clients := x; _started := _started w; _stop_signal := _stop_signal w;
     _accept_queue := _accept_queue w; _epoll := _epoll w;
     _server_socket := _server_socket w;
     _run_in_subthread := _run_in_subthread w; _stop_events := _stop_events w;
     locked := locked w; socks := socks w; threads := threads w; trace := trace w |}.

Definition set_started (x : bool) (w : world) : world :=
  {| clients := clients w; _started := x; _stop_signal := _stop_signal w;
     _accept_queue := _accept_queue w; _epoll := _epoll w;
     _server_socket := _server_socket w;
     _run_in_subthread := _run_in_subthread w; _stop_events := _stop_events w;
     locked := locked w; socks := socks w; threads := threads w; trace := trace w |}.

Definition set_stop_signal (x : bool) (w : world) : world :=
  {| clients := clients w; _started := _started w; _stop_signal := x;
     _accept_queue := _accept_queue w; _epoll := _epoll w;
     _server_socket := _server_socket w;
     _run_in_subthread := _run_in_subthread w; _stop_events := _stop_events w;
     locked := locked w; socks := socks w; threads := threads w; trace := trace w |}.

Definition set_accept_queue (x : list (conn * address)) (w : world) : world :=
  {| clients := clients w; _started := _started w; _stop_signal := _stop_signal w;
     _accept_queue := x; _epoll := _epoll w;
     _server_socket := _server_socket w;
     _run_in_subthread := _run_in_subthread w; _stop_events := _stop_events w;
     locked := locked w; socks := socks w; threads := threads w; trace := trace w |}.

Definition set_epoll (x : gmap nat (callback * list conn)) (w : world) : world :=
  {| clients := clients w; _started := _started w; _stop_signal := _stop_signal w;
     _accept_queue := _accept_queue w; _epoll := x;
     _server_socket := _server_socket w;
     _run_in_subthread := _run_in_subthread w; _stop_events := _stop_events w;
     locked := locked w; socks := socks w; threads := threads w; trace := trace w |}.

Definition set_server_socket (x : listener) (w : world) : world :=
  {| clients := clients w; _started := _started w; _stop_signal := _stop_signal w;
     _accept_queue := _accept_queue w; _epoll := _epoll w;
     _server_socket := x;
     _run_in_subthread := _run_in_subthread w; _stop_events := _stop_events w;
     locked := locked w; socks := socks w; threads := threads w; trace := trace w |}.

Definition set_run_in_subthread (x : policy_key -> bool) (w : world) : world :=
  {| clients := clients w; _started := _started w; _stop_signal := _stop_signal w;
     _accept_queue := _accept_queue w; _epoll := _epoll w;
     _server_socket := _server_socket w;
     _run_in_subthread := x; _stop_events := _stop_events w;
     locked := locked w; socks := socks w; threads := threads w; trace := trace w |}.

Definition set_stop_events (x : stage -> bool) (w : world) : world :=
  {| clients := clients w; _started := _started w; _stop_signal := _stop_signal w;
     _accept_queue := _accept_queue w; _epoll := _epoll w;
     _server_socket := _server_socket w;
     _run_in_subthread := _run_in_subthread w; _stop_events := x;
     locked := locked w; socks := socks w; threads := threads w; trace := trace w |}.

Definition set_locked (x : list lock_id) (w : world) : world :=
  {| clients := clients w; _started := _started w; _stop_signal := _stop_signal w;
     _accept_queue := _accept_queue w; _epoll := _epoll w;
     _server_socket := _server_socket w;
     _run_in_subthread := _run_in_subthread w; _stop_events := _stop_events w;
     locked := x; socks := socks w; threads := threads w; trace := trace w |}.

Definition set_socks (x : gmap nat sock) (w : world) : world :=
  {| clients := clients w; _started := _started w; _stop_signal := _stop_signal w;
     _accept_queue := _accept_queue w; _epoll := _epoll w;
     _server_socket := _server_socket w;
     _run_in_subthread := _run_in_subthread w; _stop_events := _stop_events w;
     locked := locked w; socks := x; threads := threads w; trace := trace w |}.

Definition set_threads (x : list thread) (w : world) : world :=
  {| clients := clients w; _started := _started w; _stop_signal := _stop_signal w;
     _accept_queue := _accept_queue w; _epoll := _epoll w;
     _server_socket := _server_socket w;
     _run_in_subthread := _run_in_subthread w; _stop_events := _stop_events w;
     locked := locked w; socks := socks w; threads := x; trace := trace w |}.

Definition set_trace (x : list event) (w : world) : world :=
  {| clients := clients w; _started := _started w; _stop_signal := _stop_signal w;
     _accept_queue := _accept_queue w; _epoll := _epoll w;
     _server_socket := _server_socket w;
     _run_in_subthread := _run_in_subthread w; _stop_events := _stop_events w;
     locked := locked w; socks := socks w; threads := threads w; trace := x |}.

(** [Socket.__init__]: every hook runs inline, the per-connection receive
    dispatch runs on a thread of its own. *)
Definition default_policy (k : policy_key) : bool :=
  match k with K_client_callback => true | _ => false end.

(** The server right after construction, in an environment [env] that says
    how each socket is going to behave. *)
Definition init_world (env : gmap nat sock) : world :=
  {| clients := []; _started := false; _stop_signal := false;
     _accept_queue := []; _epoll := ∅; _server_socket := Unbound;
     _run_in_subthread := default_policy; _stop_events := fun _ => false;
     locked := []; socks := env; threads := []; trace := [] |}.

Definition sock_of (c : conn) (w : world) : sock :=
  default fresh_sock (socks w !! c).

(** ** Computations *)

Inductive outcome (A : Type) :=
| Return (a : A) (w : world)
| Raise (e : exn) (w : world)
| Blocked (w : world).
Arguments Return {A} a w.
Arguments Raise {A} e w.
Arguments Blocked {A} w.

Definition M (A : Type) : Type := world -> outcome A.

Definition world_of {A} (o : outcome A) : world :=
  match o with Return _ w | Raise _ w | Blocked w => w end.

Definition ret {A} (a : A) : M A := fun w => Return a w.

Definition bind {A B} (m : M A) (f : A -> M B) : M B := fun w =>
  match m w with
  | Return a w1 => f a w1
  | Raise e w1 => Raise e w1
  | Blocked w1 => Blocked w1
  end.

Definition raise {A} (e : exn) : M A := fun w => Raise e w.

Notation "x <- c1 ;; c2" := (bind c1 (fun x => c2))
  (at level 100, c1 at next level, right associativity).
Notation "c1 ;; c2" := (bind c1 (fun _ => c2))
  (at level 100, right associativity).

(** [try: body  except <classes matched by catches>: handler] *)
Definition try_except {A} (body : M A) (catches : exn -> bool)
    (handler : exn -> M A) : M A := fun w =>
  match body w with
  | Raise e w1 => if catches e then handler e w1 else Raise e w1
  | o => o
  end.

(** [try: body  finally: fin] *)
Definition try_finally {A} (body : M A) (fin : M unit) : M A := fun w =>
  match body w with
  | Return a w1 =>
      match fin w1 with
      | Return _ w2 => Return a w2
      | Raise e w2 => Raise e w2
      | Blocked w2 => Blocked w2
      end
  | Raise e w1 =>
      match fin w1 with
      | Return _ w2 => Raise e w2
      | Raise e' w2 => Raise e' w2
      | Blocked w2 => Blocked w2
      end
  | Blocked w1 => Blocked w1
  end.

(** [for x in l: body x] *)
Fixpoint for_each {A} (l : list A) (body : A -> M unit) : M unit :=
  match l with
  | [] => ret tt
  | x :: r => body x ;; for_each r body
  end.

Definition emit (e : event) : M unit := fun w =>
  Return tt (set_trace (trace w ++ [e]) w).

Definition when (b : bool) (m : M unit) : M unit := if b then m else ret tt.

(** ** System calls and the selector *)

Definition set_rx (x : list rx_item) (s : sock) : sock :=
  {| rx := x; tx := tx s; shutdown_error := shutdown_error s; wire := wire s |}.

Definition set_tx (x : list tx_item) (s : sock) : sock :=
  {| rx := rx s; tx := x; shutdown_error := shutdown_error s; wire := wire s |}.

Definition set_wire (x : bytes) (s : sock) : sock :=
  {| rx := rx s; tx := tx s; shutdown_error := shutdown_error s; wire := x |}.

Definition put_sock (c : conn) (s : sock) (w : world) : world :=
  set_socks (<[c := s]> (socks w)) w.

Definition would_block_error : sockerr :=
  {| err_no := EAGAIN; err_text := "[Errno 11] Resource temporarily unavailable" |}.

(** [conn.recv(size)] on a non-blocking socket: at most [size] of the pending
    bytes; what is not taken stays pending, and so does the end of the
    stream.  With nothing pending the call fails with EAGAIN.  A read of
    size 0 is answered with no bytes without asking the kernel, whatever is
    pending. *)
Definition conn_recv (c : conn) (size : nat) : M bytes := fun w =>
  let s := sock_of c w in
  let w1 := set_trace (trace w ++ [EvSockRecv c size]) w in
  match size with
  | 0 => Return [] w1
  | S _ =>
      match rx s with
      | [] => Raise (SocketError would_block_error) w1
      | RxError e :: r => Raise (SocketError e) (put_sock c (set_rx r s) w1)
      | RxData bs :: r =>
          let pending :=
            match bs, drop size bs with
            | [], _ => RxData [] :: r
            | _ :: _, [] => r
            | _ :: _, rest => RxData rest :: r
            end in
          Return (take size bs) (put_sock c (set_rx pending s) w1)
      end
  end.

(** [conn.send(buf)]: the number of bytes the kernel took.  A socket whose
    script is used up takes everything. *)
Definition conn_send (c : conn) (buf : bytes) : M nat := fun w =>
  let s := sock_of c w in
  match tx s with
  | TxError e :: r =>
      Raise (SocketError e)
        (put_sock c (set_tx r s) (set_trace (trace w ++ [EvSockSend c buf None]) w))
  | TxAccept k :: r =>
      let n := k `min` length buf in
      Return n
        (put_sock c (set_wire (wire s ++ take n buf) (set_tx r s))
           (set_trace (trace w ++ [EvSockSend c buf (Some n)]) w))
  | [] =>
      let n := length buf in
      Return n
        (put_sock c (set_wire (wire s ++ buf) s)
           (set_trace (trace w ++ [EvSockSend c buf (Some n)]) w))
  end.

(** [conn.shutdown(socket.SHUT_RDWR)] *)
Definition conn_shutdown (c : conn) : M unit := fun w =>
  match shutdown_error (sock_of c w) with
  | Some e => Raise (SocketError e) (set_trace (trace w ++ [EvSockShutdown c false]) w)
  | None => Return tt (set_trace (trace w ++ [EvSockShutdown c true]) w)
  end.

(** [conn.close()] *)
Definition conn_close (c : conn) : M unit := emit (EvSockClose c).

(** [conn.setblocking(flag)] *)
Definition conn_setblocking (c : conn) (flag : bool) : M unit :=
  emit (EvSetBlocking c flag).

(** A [selectors.SelectorKey]. *)
Record SelectorKey := {
  fileobj : conn;
  data : callback * list conn
}.

(** [selector.register(conn, EVENT_READ, data)]: [KeyError] when the file
    object is registered already.  The selector is asked about sockets that
    are open: the engine closes a socket in [disconnect] only, after taking
    it out of the selector and right before dropping it from the
    registry. *)
Definition epoll_register (c : conn) (d : callback * list conn) : M unit := fun w =>
  match _epoll w !! c with
  | Some _ =>
      Raise (KeyError (KeyMsg "already registered"))
        (set_trace (trace w ++ [EvSelRegister c false]) w)
  | None =>
      Return tt
        (set_epoll (<[c := d]> (_epoll w))
           (set_trace (trace w ++ [EvSelRegister c true]) w))
  end.

(** [selector.unregister(conn)]: [KeyError] when the file object is not
    registered. *)
Definition epoll_unregister (c : conn) : M unit := fun w =>
  match _epoll w !! c with
  | Some _ =>
      Return tt
        (set_epoll (delete c (_epoll w))
           (set_trace (trace w ++ [EvSelUnregister c true]) w))
  | None =>
      Raise (KeyError (KeyMsg "not registered"))
        (set_trace (trace w ++ [EvSelUnregister c false]) w)
  end.

(** [selector.select(timeout)]: of the connections the kernel reports ready,
    the keys of those that are registered. *)
Definition epoll_select (ready : list conn) : M (list SelectorKey) := fun w =>
  Return
    (omap (fun c => (fun d => {| fileobj := c; data := d |}) <$> _epoll w !! c) ready)
    w.

(** *** The listening socket *)

Definition EBADF_error : sockerr :=
  {| err_no := 9; err_text := "[Errno 9] Bad file descriptor" |}.

Definition EINVAL_error : sockerr :=
  {| err_no := 22; err_text := "[Errno 22] Invalid argument" |}.

Definition ENOTCONN_error : sockerr :=
  {| err_no := 107; err_text := "[Errno 107] Transport endpoint is not connected" |}.

(** [_server_socket.bind((host, port))].  A socket binds once; whether a
    fresh socket gets the address is up to the arguments and to the system,
    and [answer] is the exception the call raises, if any (the address is in
    use, the port is privileged or out of range, the host does not
    resolve). *)
Definition server_bind (answer : option exn) : M unit := fun w =>
  let failed e := Raise e (set_trace (trace w ++ [EvServerBind false]) w) in
  match _server_socket w with
  | Closed => failed (SocketError EBADF_error)
  | Bound | Listening => failed (SocketError EINVAL_error)
  | Unbound =>
      match answer with
      | Some e => failed e
      | None =>
          Return tt
            (set_server_socket Bound (set_trace (trace w ++ [EvServerBind true]) w))
      end
  end.

(** [_server_socket.listen(queue_size)]; [answer] is the exception the call
    raises, if any. *)
Definition server_listen (answer : option exn) : M unit := fun w =>
  let failed e := Raise e (set_trace (trace w ++ [EvServerListen false]) w) in
  match _server_socket w with
  | Closed => failed (SocketError EBADF_error)
  | Unbound | Bound | Listening =>
      match answer with
      | Some e => failed e
      | None =>
          Return tt
            (set_server_socket Listening
               (set_trace (trace w ++ [EvServerListen true]) w))
      end
  end.

(** [_server_socket.shutdown(0)]: a listening socket stops listening; a
    socket that neither listens nor is connected has nothing to shut down,
    and a closed one has no descriptor. *)
Definition server_shutdown : M unit := fun w =>
  let failed e :=
    Raise (SocketError e) (set_trace (trace w ++ [EvServerShutdown false]) w) in
  match _server_socket w with
  | Listening =>
      Return tt
        (set_server_socket Bound (set_trace (trace w ++ [EvServerShutdown true]) w))
  | Unbound | Bound => failed ENOTCONN_error
  | Closed => failed EBADF_error
  end.

(** [_server_socket.close()] *)
Definition server_close : M unit := fun w =>
  Return tt (set_server_socket Closed (set_trace (trace w ++ [EvServerClose]) w)).

(** [server_epoll = selectors.EpollSelector()] and
    [server_epoll.register(self._server_socket, selectors.EVENT_READ)] of
    the acceptor.  The selector is new and local to the stage, so the one
    thing that can go wrong is the file object: a closed socket has no
    descriptor, and the selector raises [ValueError]. *)
Definition server_epoll_register : M unit := fun w =>
  match _server_socket w with
  | Closed => Raise (ValueError "Invalid file descriptor: -1") w
  | Unbound | Bound | Listening => Return tt w
  end.

(** [lock.acquire()] and [lock.release()] *)
Definition lock_acquire (l : lock_id) : M unit := fun w =>
  if bool_decide (l ∈ locked w) then Blocked w
  else Return tt (set_locked (l :: locked w) (set_trace (trace w ++ [EvLockAcquire l]) w)).

Definition lock_release (l : lock_id) : M unit := fun w =>
  if bool_decide (l ∈ locked w)
  then Return tt
         (set_locked (filter (λ x, x ≠ l) (locked w))
            (set_trace (trace w ++ [EvLockRelease l]) w))
  else Raise (RuntimeError "release unlocked lock") w.

(** [self.clients[conn]], [self.clients[conn] = client],
    [del self.clients[conn]], [self.clients.clear()] *)
Definition clients_getitem (c : conn) : M _ClientInfo := fun w =>
  match dict_get c (clients w) with
  | Some client => Return client w
  | None => Raise (KeyError (KeyConn c)) w
  end.

Definition clients_setitem (c : conn) (client : _ClientInfo) : M unit := fun w =>
  Return tt
    (set_clients (dict_set c client (clients w))
       (set_trace (trace w ++ [EvClientsSet c]) w)).

Definition clients_delitem (c : conn) : M unit := fun w =>
  match dict_get c (clients w) with
  | Some _ =>
      Return tt
        (set_clients (dict_del c (clients w))
           (set_trace (trace w ++ [EvClientsDel c]) w))
  | None => Raise (KeyError (KeyConn c)) w
  end.

Definition clients_clear : M unit := fun w =>
  Return tt (set_clients [] (set_trace (trace w ++ [EvClientsClear]) w)).

(** [threading.Thread(target=f, args=args).start()] in the dispatch loop *)
Definition thread_start (th : thread) : M unit := fun w =>
  Return tt (set_threads (threads w ++ [th]) w).

(** [event.set()] and [event.wait()] on [self._stop_events[s]] *)
Definition event_set (s : stage) : M unit := fun w =>
  Return tt
    (set_stop_events (λ s', if decide (s' = s) then true else _stop_events w s')
       (set_trace (trace w ++ [EvStageSet s]) w)).

Definition event_wait (s : stage) : M unit := fun w =>
  if _stop_events w s then emit (EvWait s) w else Blocked w.

(** ** The server *)

(** The first argument of [disconnect]: the string ['all'] or a connection. *)
Inductive target :=
| All
| One (c : conn).

(** The first argument of [run_in_subthread]: a function object, the name of
    an entry of the policy table, the string ['all'], or another string. *)
Inductive policy_arg :=
| ByFunction
| ByName (k : policy_key)
| ByAll
| ByOtherName.

(** What one [self._server_socket.accept()] of the acceptor gives. *)
Inductive accept_result :=
| Accepted (c : conn) (a : address)
| NothingToAccept
| AcceptError (e : sockerr).

Section Server.

(** [err[0]] for an exception object [err].  How an exception answers to
    indexing is decided by its class, and the classes of
    [ESocketS.exceptions] are not part of the sources: [inr v] is the value
    of the expression, [inl e] the exception it raises. *)
Variable exc_getitem : exn -> nat -> exn + string.

(** *** The hooks *)

(** The seven hooks are no-ops; what is left of a call is that it was made,
    inline or on a thread of its own. *)
Definition _call_on_function (h : hook) : M unit := fun w =>
  if _run_in_subthread w (hook_name h)
  then emit (EvHook Threaded h) w
  else emit (EvHook Inline h) w.

(** *** Raw I/O *)

Fixpoint send_loop (fuel : nat) (c : conn) (data : bytes)
    (to_send total_sent : nat) : M unit :=
  if (total_sent <? to_send)%nat then
    match fuel with
    | 0 => ret tt
    | S fuel' =>
        sent <- conn_send c (drop total_sent data) ;;
        if (sent =? 0)%nat then raise (ClientAbnormalDisconnect "Sent empty array")
        else send_loop fuel' c data to_send (total_sent + sent)
    end
  else ret tt.

(** Every round of the [while] loop sends at least one byte or leaves the
    loop, so [len(data)] rounds are enough. *)
Definition send_raw (c : conn) (data : bytes) (block : bool) : M unit :=
  client <- clients_getitem c ;;
  when block (lock_acquire (send_lock client)) ;;
  try_finally
    (send_loop (length data) c data (length data) 0)
    (when block (lock_release (send_lock client))).

Definition recv_raw (c : conn) (size : nat) : M bytes := fun w =>
  match conn_recv c size w with
  | Raise (SocketError e) w1 =>
      if (err_no e =? EAGAIN)%Z || (err_no e =? EWOULDBLOCK)%Z
      then Raise (WouldBlock "Tried to read client socket but no data was available") w1
      else Raise (ClientAbnormalDisconnect
                    ("socket.error while receiving: " +:+ err_text e)) w1
  | Raise e w1 => Raise e w1
  | Blocked w1 => Blocked w1
  | Return [] w1 => Raise (ClientDisconnect "Received empty bytes array") w1
  | Return data w1 => Return data w1
  end.

(** *** register / unregister *)

Definition register (c : conn) (silent : bool) : M unit :=
  client <- clients_getitem c ;;
  try_except
    (epoll_register c (callback_function client, callback_args client))
    is_KeyError
    (fun _ => if silent then ret tt
              else raise (KeyError (KeyMsg "Client already registered"))).

Definition unregister (c : conn) (silent : bool) : M unit :=
  try_except (epoll_unregister c) is_KeyError
    (fun _ => if silent then ret tt
              else raise (KeyError (KeyMsg "Client not registered"))).

(** *** disconnect *)

Definition disconnect_one (normal : bool) (msg : string) (silent : bool)
    (client : conn) : M unit :=
  unregister client true ;;
  try_except (conn_shutdown client) is_socket_error (fun _ => ret tt) ;;
  conn_close client ;;
  if normal && negb silent then _call_on_function (on_disconnect client)
  else if negb silent then _call_on_function (on_abnormal_disconnect client msg)
  else ret tt.

Definition disconnect (t : target) (normal : bool) (msg : string)
    (silent : bool) : M unit := fun w =>
  let clients_ :=
    match t with
    | All => dict_keys (clients w)
    | One c => [c]
    end in
  (for_each clients_ (disconnect_one normal msg silent) ;;
   match t with
   | All => clients_clear
   | One c => clients_delitem c
   end) w.

(** *** The receive dispatch *)

Definition recv (c : conn) (size : nat) : M (option bytes) := fun w =>
  match recv_raw c size w with
  | Raise err w1 =>
      if is_ClientDisconnect err then
        (_call_on_function (on_disconnect c) ;; ret None) w1
      else if is_ClientAbnormalDisconnect err then
        match exc_getitem err 0 with
        | inr msg => (_call_on_function (on_abnormal_disconnect c msg) ;; ret None) w1
        | inl e => Raise e w1
        end
      else Raise err w1
  | Blocked w1 => Blocked w1
  | Return data w1 => (_call_on_function (on_recv c data) ;; ret (Some data)) w1
  end.

(** The call of a callback [f] on the argument tuple [args], both taken from
    a client record; [size] keeps its default. *)
Definition call_callback (f : callback) (args : list conn) : M unit :=
  match f, args with
  | Bound_recv, [c] => _ <- recv c 4096 ;; ret tt
  | Bound_recv, _ => raise (TypeError "recv() takes one connection")
  end.

(** *** Lifecycle *)

(** [bind_answer] and [listen_answer] are what the [bind] and the [listen] of
    the listening socket raise, if anything. *)
Definition start (bind_answer listen_answer : option exn) : M unit := fun w =>
  if _started w then Raise (OSError "Server can only be started once") w
  else
    (emit EvStartedFlag ;;
     (fun w1 => Return tt (set_started true w1)) ;;
     server_bind bind_answer ;;
     server_listen listen_answer ;;
     for_each all_stages (fun s => emit (EvStageStart s)) ;;
     _call_on_function on_start) w.

(** [stop] waits for the three background stages.  They run on threads of
    their own: while the caller of [stop] waits, the stages listed in
    [exits] notice the stop flag, leave their loop and set their event in
    their [finally] clause (which does nothing more, the flag being set). *)
Definition stop (reason : string) (exits : list stage) : M unit := fun w =>
  if negb (_started w)
  then Raise (OSError "Can't stop server because it has not been started yet") w
  else
    (emit EvStopSignal ;;
     (fun w1 => Return tt (set_stop_signal true w1)) ;;
     disconnect All true "" true ;;
     for_each exits event_set ;;
     for_each all_stages event_wait ;;
     server_shutdown ;;
     server_close ;;
     _call_on_function (on_stop reason)) w.

(** The [finally] clause of a background stage. *)
Definition stage_finally (s : stage) (reason : string) (exits : list stage)
    : M unit :=
  event_set s ;;
  fun w => if negb (_stop_signal w) then stop reason exits w else Return tt w.

(** *** The dispatch loop *)

(** The body of [for key, mask in events]. *)
Definition dispatch (key : SelectorKey) : M unit :=
  unregister (fileobj key) false ;;
  fun w =>
    if _run_in_subthread w K_client_callback then
      (emit (EvDispatch Threaded (fileobj key) (data key).1 (data key).2) ;;
       thread_start {| th_key := fileobj key; th_target := (data key).1;
                       th_args := (data key).2 |}) w
    else
      (emit (EvDispatch Inline (fileobj key) (data key).1 (data key).2) ;;
       call_callback (data key).1 (data key).2) w.

(** The [while] loop of [_recv]; [polls] is what the successive calls of
    [select] report.  When the reports are used up the stage is left
    waiting in [select]. *)
Fixpoint _recv_loop (polls : list (list conn)) : M unit := fun w =>
  if _stop_signal w then Return tt w
  else
    match polls with
    | [] => Blocked w
    | ready :: rest =>
        (events <- epoll_select ready ;;
         for_each events dispatch ;;
         _recv_loop rest) w
    end.

Definition _recv (polls : list (list conn)) (exits : list stage) : M unit :=
  try_finally (_recv_loop polls) (stage_finally S_recv "Error in _recv" exits).

(** A thread started by the dispatch loop runs its target; an exception
    the target raises ends the thread and goes no further. *)
Definition thread_run (i : nat) : M unit := fun w =>
  match threads w !! i with
  | None => Return tt w
  | Some th =>
      let w1 := world_of (call_callback (th_target th) (th_args th) w) in
      Return tt (set_threads (delete i (threads w1)) w1)
  end.

(** *** The acceptor *)

(** The [while] loop of [_accept].  The [select] on the selector of the
    stage only paces the loop; [script] is what the successive calls of
    [accept()] give, [BlockingIOError] included.  When the script is used up
    the stage is left waiting in [select]. *)
Fixpoint _accept_loop (script : list accept_result) : M unit := fun w =>
  if _stop_signal w then Return tt w
  else
    match script with
    | [] => Blocked w
    | Accepted c a :: rest =>
        _accept_loop rest (set_accept_queue (_accept_queue w ++ [(c, a)]) w)
    | NothingToAccept :: rest => _accept_loop rest w
    | AcceptError e :: _ => Raise (SocketError e) w
    end.

(** The selector of the stage is set up before the [try]: when that raises,
    the [finally] clause does not run. *)
Definition _accept (script : list accept_result) (exits : list stage) : M unit :=
  server_epoll_register ;;
  try_finally (_accept_loop script) (stage_finally S_accept "Error in _accept" exits).

(** *** The admission stage *)

(** The [else] branch of the loop: one entry of the queue becomes a client. *)
Definition handle_connect (entry : conn * address) : M unit :=
  conn_setblocking entry.1 false ;;
  let client := {| address_of := entry.2; callback_function := Bound_recv;
                   callback_args := [entry.1] |} in
  clients_setitem entry.1 client ;;
  _call_on_function (on_connect entry.1).

(** [rounds] passes of the [while] loop; a pass with an empty queue is a
    [queue.Empty] after the timeout. *)
Fixpoint _handle_connects_loop (rounds : nat) : M unit := fun w =>
  if _stop_signal w then Return tt w
  else
    match rounds with
    | 0 => Blocked w
    | S rounds' =>
        match _accept_queue w with
        | [] => _handle_connects_loop rounds' w
        | entry :: rest =>
            (handle_connect entry ;; _handle_connects_loop rounds') (set_accept_queue rest w)
        end
    end.

Definition _handle_connects (rounds : nat) (exits : list stage) : M unit :=
  try_finally (_handle_connects_loop rounds)
    (stage_finally S_handle_connects "Error in _handle_connects" exits).

(** [hasattr(function, __name__)] asks for an attribute called like the
    module, which no function object has, so a function object ends in the
    [else] branch. *)
Definition run_in_subthread (function : policy_arg) (yes_no : bool) : M unit :=
  fun w =>
    match function with
    | ByName k =>
        Return tt
          (set_run_in_subthread
             (λ k', if decide (k' = k) then yes_no else _run_in_subthread w k') w)
    | ByAll => Return tt (set_run_in_subthread (λ _, yes_no) w)
    | ByFunction | ByOtherName =>
        Raise (ValueError "The function is not a valid option") w
    end.

(** [get_ip] and [get_clients] *)
Definition get_ip (c : conn) : M address :=
  client <- clients_getitem c ;; ret (address_of client).

Definition get_clients : M (list conn) := fun w =>
  Return (dict_keys (clients w)) w.

End Server.

(** ** The server as a transition system *)

(** What can happen to a running server: a background stage makes progress,
    a thread of the dispatch loop runs, or the application calls one of the
    public operations. *)
Inductive action :=
| Do_start (bind_answer listen_answer : option exn)
| Do_stop (reason : string) (exits : list stage)
| Do_accept (script : list accept_result) (exits : list stage)
| Do_handle_connects (rounds : nat) (exits : list stage)
| Do_recv (polls : list (list conn)) (exits : list stage)
| Do_thread (i : nat)
| Do_register (c : conn) (silent : bool)
| Do_unregister (c : conn) (silent : bool)
| Do_send (c : conn) (data : bytes) (block : bool)
| Do_disconnect (t : target) (normal : bool) (msg : string) (silent : bool)
| Do_run_in_subthread (function : policy_arg) (yes_no : bool).

Definition perform (g : exn -> nat -> exn + string) (a : action) : M unit :=
  match a with
  | Do_start bind_answer listen_answer => start bind_answer listen_answer
  | Do_stop reason exits => stop reason exits
  | Do_accept script exits => _accept script exits
  | Do_handle_connects rounds exits => _handle_connects rounds exits
  | Do_recv polls exits => _recv g polls exits
  | Do_thread i => thread_run g i
  | Do_register c silent => register c silent
  | Do_unregister c silent => unregister c silent
  | Do_send c data block => send_raw c data block
  | Do_disconnect t normal msg silent => disconnect t normal msg silent
  | Do_run_in_subthread function yes_no => run_in_subthread function yes_no
  end.

(** The world an action leaves behind, however it ends. *)
Definition exec (g : exn -> nat -> exn + string) (a : action) (w : world) : world :=
  world_of (perform g a w).

Definition run (g : exn -> nat -> exn + string) (acts : list action) (w : world)
    : world :=
  fold_left (fun w a => exec g a w) acts w.

(** Python 3 indexing of an exception whose class defines no [__getitem__]. *)
Definition not_subscriptable (e : exn) (i : nat) : exn + string :=
  inl (TypeError "exception object is not subscriptable").

(** Python 2 indexing of an exception: an index into [e.args]. *)
Definition args_getitem (e : exn) (i : nat) : exn + string :=
  match e, i with
  | ClientAbnormalDisconnect msg, 0 => inr msg
  | _, _ => inl (TypeError "index out of range")
  end.

(** ** Properties of traces and worlds *)



(** Every dispatch comes right after the successful [unregister] of its
    connection. *)
Definition dispatch_preceded (t : list event) : Prop :=
  ∀ t1 m c f a t2, t = t1 ++ EvDispatch m c f a :: t2 →
    ∃ t0, t1 = t0 ++ [EvSelUnregister c true].

(** The connections with a receive dispatch running on a thread. *)
Definition in_flight (w : world) : list conn := th_key <$> threads w.

(** The hook calls of a trace. *)
Definition hooks_of (t : list event) : list hook :=
  omap (fun e => match e with EvHook _ h => Some h | _ => None end) t.

(** The events that concern connection [c]; clearing the registry concerns
    every connection. *)
Definition about (c : conn) (e : event) : bool :=
  match e with
  | EvHook _ (on_recv c' _) | EvHook _ (on_connect c') | EvHook _ (on_disconnect c')
  | EvHook _ (on_abnormal_disconnect c' _)
  | EvDispatch _ c' _ _ | EvSelRegister c' _ | EvSelUnregister c' _
  | EvSockRecv c' _ | EvSockSend c' _ _ | EvSockShutdown c' _ | EvSockClose c'
  | EvSetBlocking c' _ | EvClientsSet c' | EvClientsDel c' => bool_decide (c' = c)
  | EvClientsClear => true
  | _ => false
  end.

(** [hook] called per the policy table of [w]. *)
Definition hook_event (w : world) (h : hook) : event :=
  EvHook (if _run_in_subthread w (hook_name h) then Threaded else Inline) h.

(** How [recv_raw] answers to the outcome of the one [conn.recv] it makes. *)
Inductive recv_raw_answers : outcome bytes → outcome bytes → Prop :=
| answers_would_block e w :
    err_no e = EAGAIN ∨ err_no e = EWOULDBLOCK →
    recv_raw_answers (Raise (SocketError e) w)
      (Raise (WouldBlock "Tried to read client socket but no data was available") w)
| answers_abnormal e w :
    err_no e ≠ EAGAIN → err_no e ≠ EWOULDBLOCK →
    recv_raw_answers (Raise (SocketError e) w)
      (Raise (ClientAbnormalDisconnect
                ("socket.error while receiving: " +:+ err_text e)) w)
| answers_disconnect w :
    recv_raw_answers (Return [] w)
      (Raise (ClientDisconnect "Received empty bytes array") w)
| answers_data b bs w :
    recv_raw_answers (Return (b :: bs) w) (Return (b :: bs) w).

(** What [disconnect] does about one connection [c], seen from world [w]:
    the selector call, the shutdown, the close and, unless [silent], the
    hook. *)
Definition disconnect_events (normal : bool) (msg : string) (silent : bool)
    (w : world) (c : conn) : list event :=
  [EvSelUnregister c (bool_decide (is_Some (_epoll w !! c)));
   EvSockShutdown c (match shutdown_error (sock_of c w) with None => true | Some _ => false end);
   EvSockClose c]
  ++ (if silent then []
      else [hook_event w (if normal then on_disconnect c
                          else on_abnormal_disconnect c msg)]).

Global Arguments disconnect_events : simpl never.

(** The targets of a [disconnect]. *)
Definition targets_of (t : target) (w : world) : list conn :=
  match t with
  | All => dict_keys (clients w)
  | One c => [c]
  end.

(** The stop events after the stages of [exits] have set theirs. *)
Definition events_after (exits : list stage) (f : stage → bool) : stage → bool :=
  fold_left (λ f s, λ s', if decide (s' = s) then true else f s') exits f.

(** All three stage-completion events are set once the stages of [exits]
    have set theirs. *)
Definition all_fired (exits : list stage) (w : world) : bool :=
  forallb (λ s, _stop_events w s || bool_decide (s ∈ exits)) all_stages.

(** The world [stop] has made of [w] when it comes to wait for the stages:
    the flag is up, every connection of the registry has been taken out of
    the selector, shut down and closed without a hook, the registry is
    empty, and the stages of [exits] have set their events. *)
Definition stop_waiting (exits : list stage) (w : world) : world :=
  set_stop_events (events_after exits (_stop_events w))
    (set_trace
       (trace w ++ [EvStopSignal]
        ++ flat_map (disconnect_events true "" true w) (dict_keys (clients w))
        ++ [EvClientsClear] ++ (EvStageSet <$> exits))
       (set_clients []
          (set_epoll (fold_left (λ m c, delete c m) (dict_keys (clients w)) (_epoll w))
             (set_stop_signal true w)))).


(** ** Invariants of the transition system *)

(** A step keeps a property of worlds. *)
Definition preserves (I : world → Prop) (w w' : world) : Prop := I w → I w'.

(** A computation keeps a relation between the world it starts in and the
    world it leaves, however it ends. *)
Definition always (R : world → world → Prop) {A} (m : M A) : Prop :=
  ∀ w, R w (world_of (m w)).

(** Events that are neither an [on_recv] hook call nor a dispatch. *)
Definition plain (e : event) : bool :=
  match e with
  | EvHook _ (on_recv _ _) | EvDispatch _ _ _ _ => false
  | _ => true
  end.


Definition not_dispatch (e : event) : bool :=
  match e with
  | EvDispatch _ _ _ _ => false
  | _ => true
  end.

(** A step that leaves registry, selector and threads alone and only adds
    events of the kind [P] to the trace. *)
Definition quiet_step (P : event → bool) (w w' : world) : Prop :=
  clients w' = clients w ∧ _epoll w' = _epoll w ∧ threads w' = threads w
  ∧ ∃ evs, trace w' = trace w ++ evs ∧ Forall (λ e, P e = true) evs.


(** No connection has two receive dispatches in flight, a connection with a
    dispatch in flight is not in the watch set, and every dispatch came
    right after the unregister of its connection. *)
Definition one_shot (w : world) : Prop :=
  NoDup (in_flight w)
  ∧ (∀ c, c ∈ in_flight w → _epoll w !! c = None)
  ∧ dispatch_preceded (trace w).

(** The application calls [register] only for connections without a receive
    dispatch in flight. *)
Fixpoint disciplined (g : exn → nat → exn + string) (acts : list action)
    (w : world) : Prop :=
  match acts with
  | [] => True
  | a :: rest =>
      match a with
      | Do_register c _ => c ∉ in_flight w
      | _ => True
      end
      ∧ disciplined g rest (exec g a w)
  end.

(** The trace only grows. *)
Definition extends (w w' : world) : Prop := trace w `prefix_of` trace w'.


(** ** Scenarios *)

Definition peer7 : address := ("10.0.0.7", 40007%Z).
Definition peer8 : address := ("10.0.0.8", 40008%Z).

(** Connection 7 has nothing to read and its kernel buffer takes one byte and
    then none; connection 8 behaves. *)
Definition env_two : gmap nat sock :=
  {[ 7 := {| rx := []; tx := [TxAccept 1; TxAccept 0];
             shutdown_error := None; wire := [] |};
     8 := fresh_sock ]}.

(** The server is started and connections 7 and 8 have become clients. *)
Definition two_connections : list action :=
  [Do_start None None;
   Do_accept [Accepted 7 peer7; Accepted 8 peer8] [];
   Do_handle_connects 2 []].

Definition w_two : world := run not_subscriptable two_connections (init_world env_two).

Definition client7 : _ClientInfo :=
  {| address_of := peer7; callback_function := Bound_recv; callback_args := [7] |}.

Definition client8 : _ClientInfo :=
  {| address_of := peer8; callback_function := Bound_recv; callback_args := [8] |}.

(** A sender on connection 7 has taken the send lock of its record and is
    in its loop. *)
Definition w_two_sending : world :=
  world_of (lock_acquire (send_lock client7) w_two).

(** Connection 7 has been reset by its peer. *)
Definition env_reset : gmap nat sock :=
  {[ 7 := {| rx := [RxError {| err_no := 104;
                               err_text := "[Errno 104] Connection reset by peer" |}];
             tx := []; shutdown_error := None; wire := [] |} ]}.

Definition w_reset : world :=
  run not_subscriptable
    [Do_start None None; Do_accept [Accepted 7 peer7] []; Do_handle_connects 1 []]
    (init_world env_reset).

(** Connection 7 is armed, reported ready and dispatched on a thread; the
    thread ends, the application arms the connection again, and it is
    dispatched a second time. *)
Definition rearm_after_dispatch : list action :=
  two_connections ++
  [Do_register 7 false; Do_recv [[7]] []; Do_thread 0;
   Do_register 7 false; Do_recv [[7]] []].

(** The same, but the application arms the connection again while the thread
    of the first dispatch is still running. *)
Definition rearm_during_dispatch : list action :=
  two_connections ++
  [Do_register 7 false; Do_recv [[7]] [];
   Do_register 7 false; Do_recv [[7]] []].

(** The receive dispatch is switched to inline, connection 7 is armed and the
    selector reports it ready although nothing is pending. *)
Definition spurious_wakeup_inline : list action :=
  two_connections ++
  [Do_run_in_subthread (ByName K_client_callback) false;
   Do_register 7 false;
   Do_recv [[7]] [S_accept; S_handle_connects]].

(** ** Notions for the rest of the engine *)

(** The connections an acceptor script hands over, in order. *)
Definition accepted_of (script : list accept_result) : list (conn * address) :=
  omap (λ r, match r with Accepted c a => Some (c, a) | _ => None end) script.

Definition is_accept_error (r : accept_result) : bool :=
  match r with AcceptError _ => true | _ => false end.

(** The client record the admission stage builds for a queue entry. *)
Definition record_of (entry : conn * address) : _ClientInfo :=
  {| address_of := entry.2; callback_function := Bound_recv;
     callback_args := [entry.1] |}.

(** The registry is a dict, and whatever is armed in the selector is in the
    registry. *)
Definition registry_sound (w : world) : Prop :=
  NoDup (dict_keys (clients w))
  ∧ ∀ k, is_Some (_epoll w !! k) → is_Some (dict_get k (clients w)).

(** The thread the dispatch loop starts for a selector key, and the two
    events that starting it leaves in the trace. *)
Definition thread_of (key : SelectorKey) : thread :=
  {| th_key := fileobj key; th_target := (data key).1; th_args := (data key).2 |}.

Definition dispatch_events (key : SelectorKey) : list event :=
  [EvSelUnregister (fileobj key) true;
   EvDispatch Threaded (fileobj key) (data key).1 (data key).2].

(** Reading the selector off the trace: whether [c] is armed after the
    events seen so far, or [None] when the events do not fit together (a
    successful register of an armed connection, a successful unregister of
    one that is not). *)
Definition sel_step (c : conn) (st : option bool) (e : event) : option bool :=
  match st with
  | None => None
  | Some armed_now =>
      match e with
      | EvSelRegister c' true =>
          if decide (c' = c) then (if armed_now then None else Some true) else st
      | EvSelUnregister c' true =>
          if decide (c' = c) then (if armed_now then Some false else None) else st
      | _ => st
      end
  end.

Definition sel_view (c : conn) (t : list event) : option bool :=
  foldl (sel_step c) (Some false) t.

(** Events that neither change what the trace says about the selector nor
    are a dispatch. *)
Definition tame (e : event) : bool :=
  match e with
  | EvDispatch _ _ _ _ | EvSelRegister _ true | EvSelUnregister _ true => false
  | _ => true
  end.

(** The trace tells the watch set, and every dispatch in it comes right
    after the unregister of its connection. *)
Definition selector_logged (w : world) : Prop :=
  (∀ c, sel_view c (trace w) = Some (bool_decide (is_Some (_epoll w !! c))))
  ∧ dispatch_preceded (trace w).

(** ** More scenarios *)

(** The server has been started and nothing else has happened. *)
Definition w_started : world :=
  run not_subscriptable [Do_start None None] (init_world env_two).

(** Connections 7 and 8 have been accepted and wait in the queue. *)
Definition w_queued : world :=
  run not_subscriptable [Do_accept [Accepted 7 peer7; Accepted 8 peer8] []] w_started.

(** Both clients have been armed. *)
Definition w_two_armed : world :=
  run not_subscriptable [Do_register 7 false; Do_register 8 false] w_two.

(** The server has been stopped while all three stages left their loops. *)
Definition w_stopped : world := world_of (stop "" all_stages w_two).

(** A [stop] is waiting for the stages: the flag is up, the listening socket
    is still open. *)
Definition w_stopping : world := world_of (stop "" [] w_two).

(** Another process listens on the port already. *)
Definition EADDRINUSE_error : sockerr :=
  {| err_no := 98; err_text := "[Errno 98] Address already in use" |}.


(** * Theorems *)

(** ** Raw receive *)

Lemma conn_recv_trace c size w :
  trace (world_of (conn_recv c size w)) = trace w ++ [EvSockRecv c size].
Proof.
  unfold conn_recv.
  destruct size; [reflexivity|].
  destruct (rx (sock_of c w)) as [|[bs|e] r]; reflexivity.
Qed.

Lemma conn_recv_outcome c size w :
  (∃ e w1, conn_recv c size w = Raise (SocketError e) w1) ∨
  (∃ d w1, conn_recv c size w = Return d w1 ∧ length d ≤ size).
Proof.
  unfold conn_recv.
  destruct size as [|n]; [right; eexists _, _; split; [reflexivity|simpl; lia]|].
  destruct (rx (sock_of c w)) as [|[bs|e] r]; eauto.
  right. eexists _, _. split; [reflexivity|]. rewrite length_take. lia.
Qed.

(** C5.  [recv_raw] makes exactly one read of up to [size] bytes on the
    connection and classifies what comes back: a socket error with errno
    EAGAIN or EWOULDBLOCK becomes [WouldBlock], any other socket error becomes
    [ClientAbnormalDisconnect] carrying the text of the error, a read of no
    bytes becomes [ClientDisconnect], and otherwise the bytes read, at most
    [size] of them, are returned. *)
Theorem C5_recv_raw_classifies (c : conn) (size : nat) (w : world) :
  recv_raw_answers (conn_recv c size w) (recv_raw c size w)
  ∧ trace (world_of (recv_raw c size w)) = trace w ++ [EvSockRecv c size]
  ∧ match recv_raw c size w with
    | Return d _ => length d ≤ size
    | _ => True
    end.
Proof.
  pose proof (conn_recv_trace c size w) as Ht.
  unfold recv_raw.
  destruct (conn_recv_outcome c size w) as [(e & w1 & Heq)|(d & w1 & Heq & Hlen)];
    rewrite Heq in *.
  - simpl in Ht.
    destruct ((err_no e =? EAGAIN)%Z || (err_no e =? EWOULDBLOCK)%Z) eqn:Hb.
    + split_and!; [|done..]. constructor.
      apply orb_true_iff in Hb as [?%Z.eqb_eq|?%Z.eqb_eq]; auto.
    + split_and!; [|done..]. apply orb_false_iff in Hb as [?%Z.eqb_neq ?%Z.eqb_neq].
      by constructor.
  - simpl in Ht. destruct d; split_and!; try done; constructor.
Qed.

(** ** Hooks and the receive dispatch *)

Lemma bind_eq {A B} (m : M A) (f : A → M B) w :
  bind m f w =
    match m w with
    | Return a w1 => f a w1
    | Raise e w1 => Raise e w1
    | Blocked w1 => Blocked w1
    end.
Proof. reflexivity. Qed.

Lemma _call_on_function_eq h w :
  _call_on_function h w = Return tt (set_trace (trace w ++ [hook_event w h]) w).
Proof.
  unfold _call_on_function, hook_event, emit.
  by destruct (_run_in_subthread w (hook_name h)).
Qed.

Lemma hooks_of_app t1 t2 : hooks_of (t1 ++ t2) = hooks_of t1 ++ hooks_of t2.
Proof. apply omap_app. Qed.

Lemma recv_data g c size w d w1 :
  recv_raw c size w = Return d w1 →
  recv g c size w =
    Return (Some d) (set_trace (trace w1 ++ [hook_event w1 (on_recv c d)]) w1).
Proof.
  intros H. unfold recv. rewrite H. unfold bind. by rewrite _call_on_function_eq.
Qed.

Lemma recv_clean_disconnect g c size w msg w1 :
  recv_raw c size w = Raise (ClientDisconnect msg) w1 →
  recv g c size w =
    Return None (set_trace (trace w1 ++ [hook_event w1 (on_disconnect c)]) w1).
Proof.
  intros H. unfold recv. rewrite H. simpl. unfold bind.
  by rewrite _call_on_function_eq.
Qed.

Lemma recv_abnormal_disconnect g c size w msg w1 :
  recv_raw c size w = Raise (ClientAbnormalDisconnect msg) w1 →
  recv g c size w =
    match g (ClientAbnormalDisconnect msg) 0 with
    | inr v =>
        Return None
          (set_trace (trace w1 ++ [hook_event w1 (on_abnormal_disconnect c v)]) w1)
    | inl e => Raise e w1
    end.
Proof.
  intros H. unfold recv. rewrite H. simpl.
  destruct (g _ 0); [done|]. unfold bind. by rewrite _call_on_function_eq.
Qed.

(** C1.  When the read of the receive dispatch would block, [recv] fires no
    hook, but it does not swallow the signal either: [WouldBlock] is raised to
    whoever called [recv], the dispatch loop included. *)
Theorem C1_would_block_leaves_recv (g : exn → nat → exn + string)
    (c : conn) (size : nat) (w : world) (e : sockerr) (w1 : world) :
  conn_recv c size w = Raise (SocketError e) w1 →
  err_no e = EAGAIN ∨ err_no e = EWOULDBLOCK →
  recv g c size w =
    Raise (WouldBlock "Tried to read client socket but no data was available") w1
  ∧ hooks_of (trace w1) = hooks_of (trace w).
Proof.
  intros Hrecv Herr.
  pose proof (conn_recv_trace c size w) as Ht. rewrite Hrecv in Ht. simpl in Ht.
  split.
  - unfold recv, recv_raw. rewrite Hrecv.
    replace ((err_no e =? EAGAIN)%Z || (err_no e =? EWOULDBLOCK)%Z) with true; [done|].
    symmetry. apply orb_true_iff. destruct Herr as [->| ->]; [left|right]; done.
  - rewrite Ht, hooks_of_app. simpl. by rewrite app_nil_r.
Qed.

(** ** register and unregister *)

Lemma register_in_registry c silent w client :
  dict_get c (clients w) = Some client →
  register c silent w =
    match _epoll w !! c with
    | None =>
        Return tt
          (set_epoll (<[c := (callback_function client, callback_args client)]> (_epoll w))
             (set_trace (trace w ++ [EvSelRegister c true]) w))
    | Some _ =>
        if silent
        then Return tt (set_trace (trace w ++ [EvSelRegister c false]) w)
        else Raise (KeyError (KeyMsg "Client already registered"))
               (set_trace (trace w ++ [EvSelRegister c false]) w)
    end.
Proof.
  intros H. unfold register, bind, clients_getitem, try_except, epoll_register.
  rewrite H. destruct (_epoll w !! c); [|done]. simpl. by destruct silent.
Qed.

Lemma unregister_eq c silent w :
  unregister c silent w =
    match _epoll w !! c with
    | Some _ =>
        Return tt
          (set_epoll (delete c (_epoll w))
             (set_trace (trace w ++ [EvSelUnregister c true]) w))
    | None =>
        if silent
        then Return tt (set_trace (trace w ++ [EvSelUnregister c false]) w)
        else Raise (KeyError (KeyMsg "Client not registered"))
               (set_trace (trace w ++ [EvSelUnregister c false]) w)
    end.
Proof.
  unfold unregister, try_except, epoll_unregister.
  destruct (_epoll w !! c); [done|]. simpl. by destruct silent.
Qed.

(** C9.  For a connection of the registry, [register] arms it in the
    selector with the callback and arguments of its record, and raises
    [KeyError] when it is armed already unless [silent]; [unregister] disarms
    it, and raises [KeyError] when it is not armed unless [silent]; with
    [silent] both return normally whatever the membership, and leave it as
    it was when there was nothing to do. *)
Theorem C9_register_unregister (c : conn) (silent : bool) (w : world)
    (client : _ClientInfo) :
  dict_get c (clients w) = Some client →
  match _epoll w !! c with
  | None =>
      (∃ w', register c silent w = Return tt w'
             ∧ _epoll w' = <[c := (callback_function client, callback_args client)]> (_epoll w))
      ∧ (if silent
         then ∃ w', unregister c silent w = Return tt w' ∧ _epoll w' = _epoll w
         else ∃ w', unregister c silent w
                      = Raise (KeyError (KeyMsg "Client not registered")) w'
                    ∧ _epoll w' = _epoll w)
  | Some _ =>
      (if silent
       then ∃ w', register c silent w = Return tt w' ∧ _epoll w' = _epoll w
       else ∃ w', register c silent w
                    = Raise (KeyError (KeyMsg "Client already registered")) w'
                  ∧ _epoll w' = _epoll w)
      ∧ (∃ w', unregister c silent w = Return tt w'
               ∧ _epoll w' = delete c (_epoll w))
  end.
Proof.
  intros H. rewrite (register_in_registry _ _ _ _ H), unregister_eq.
  destruct (_epoll w !! c), silent; split; eexists; split; reflexivity.
Qed.

(** C10.  For a connection that is not in the registry, [register] raises the
    [KeyError] of the registry lookup, whatever [silent] says: the lookup is
    made before the guarded call of the selector, which is never reached. *)
Theorem C10_register_unknown_connection (c : conn) (silent : bool) (w : world) :
  dict_get c (clients w) = None →
  register c silent w = Raise (KeyError (KeyConn c)) w.
Proof.
  intros H. unfold register, bind, clients_getitem. by rewrite H.
Qed.

(** ** disconnect *)

Lemma disconnect_one_eq normal msg silent c w :
  disconnect_one normal msg silent c w =
    Return tt (set_epoll (delete c (_epoll w))
                 (set_trace (trace w ++ disconnect_events normal msg silent w c) w)).
Proof.
  unfold disconnect_one, bind. rewrite unregister_eq.
  unfold disconnect_events, try_except, conn_shutdown, conn_close, emit, sock_of.
  destruct w as [cl st sg q ep srv pol evs lk sk th tr]; simpl.
  destruct (ep !! c) eqn:E; simpl;
    destruct (shutdown_error (default fresh_sock (sk !! c))); simpl;
    destruct normal, silent; simpl; rewrite ?_call_on_function_eq; simpl;
    unfold set_epoll, set_trace, hook_event; simpl;
    rewrite <- ?app_assoc; simpl; rewrite ?(delete_id _ _ E); reflexivity.
Qed.

Lemma disconnect_events_ext normal msg silent w w' c :
  _epoll w' !! c = _epoll w !! c →
  socks w' = socks w →
  _run_in_subthread w' = _run_in_subthread w →
  disconnect_events normal msg silent w' c = disconnect_events normal msg silent w c.
Proof.
  intros He Hs Hp. unfold disconnect_events, sock_of, hook_event.
  by rewrite He, Hs, Hp.
Qed.

Lemma flat_map_agree {A B} (f g : A → list B) (l : list A) :
  (∀ x, x ∈ l → f x = g x) → flat_map f l = flat_map g l.
Proof.
  induction l as [|x r IH]; intros H; simpl; [done|].
  rewrite (H x) by left. f_equal. apply IH. intros y Hy. apply H. by right.
Qed.

Lemma for_each_disconnect normal msg silent l : ∀ w,
  NoDup l →
  for_each l (disconnect_one normal msg silent) w =
    Return tt
      (set_epoll (fold_left (λ m c, delete c m) l (_epoll w))
         (set_trace (trace w ++ flat_map (disconnect_events normal msg silent w) l) w)).
Proof.
  induction l as [|x r IH]; intros w Hnd.
  - simpl. unfold ret. destruct w; simpl. by rewrite app_nil_r.
  - apply NoDup_cons in Hnd as [Hx Hr].
    cbn [for_each flat_map fold_left]. unfold bind.
    rewrite disconnect_one_eq, IH by done.
    rewrite (flat_map_agree _ (disconnect_events normal msg silent w) r).
    + generalize (disconnect_events normal msg silent w x)
        (flat_map (disconnect_events normal msg silent w) r).
      intros e1 e2. destruct w; simpl. unfold set_epoll, set_trace; simpl.
      by rewrite <- app_assoc.
    + intros c Hc. apply disconnect_events_ext; simpl; [|done..].
      apply lookup_delete_ne. by intros ->.
Qed.

Lemma fold_delete_lookup (l : list conn) : ∀ (m : gmap nat (callback * list conn)) c,
  fold_left (λ m c, delete c m) l m !! c =
    if bool_decide (c ∈ l) then None else m !! c.
Proof.
  induction l as [|x r IH]; intros m c; simpl.
  - done.
  - rewrite IH. destruct (decide (c = x)) as [->|Hne].
    + rewrite lookup_delete_eq. rewrite (bool_decide_eq_true_2 (x ∈ x :: r)) by left.
      by case_bool_decide.
    + rewrite lookup_delete_ne by done.
      case_bool_decide as H1; case_bool_decide as H2; try done.
      * exfalso. apply H2. by right.
      * exfalso. apply H1. by apply elem_of_cons in H2 as [?|?].
Qed.

Lemma filter_about_disconnect_events normal msg silent w c c' :
  List.filter (about c) (disconnect_events normal msg silent w c') =
    if decide (c' = c) then disconnect_events normal msg silent w c' else [].
Proof.
  unfold disconnect_events, hook_event.
  destruct (decide (c' = c)) as [->|Hne].
  - destruct silent, normal; simpl; rewrite !bool_decide_eq_true_2 by done; done.
  - destruct silent, normal; simpl; rewrite !bool_decide_eq_false_2 by done; done.
Qed.

Lemma filter_about_flat_map normal msg silent w c l :
  NoDup l → c ∈ l →
  List.filter (about c) (flat_map (disconnect_events normal msg silent w) l) =
    disconnect_events normal msg silent w c.
Proof.
  induction l as [|x r IH]; intros Hnd Hin; [by apply elem_of_nil in Hin|].
  apply NoDup_cons in Hnd as [Hx Hr]. cbn [flat_map].
  rewrite List.filter_app, filter_about_disconnect_events.
  destruct (decide (x = c)) as [->|Hne].
  - assert (List.filter (about c) (flat_map (disconnect_events normal msg silent w) r) = []) as ->;
      [|by rewrite app_nil_r].
    clear IH Hin. induction r as [|y r IH]; [done|]. cbn [flat_map].
    rewrite List.filter_app, filter_about_disconnect_events.
    rewrite decide_False by (intros ->; apply Hx; left).
    apply IH.
    + intros H. apply Hx. by right.
    + by apply NoDup_cons in Hr as [_ ?].
  - apply IH; [done|]. apply elem_of_cons in Hin as [->|?]; done.
Qed.

Lemma dict_get_del_same {V} c (d : list (conn * V)) :
  NoDup (dict_keys d) → dict_get c (dict_del c d) = None.
Proof.
  unfold dict_keys. induction d as [|[k v] r IH]; intros Hnd; simpl; [done|].
  apply NoDup_cons in Hnd as [Hk Hr]. simpl in *.
  destruct (decide (k = c)) as [->|Hne]; simpl.
  - clear IH Hr. induction r as [|[k' v'] r IH]; simpl; [done|].
    rewrite decide_False.
    + apply IH. intros H. apply Hk. simpl. by right.
    + intros ->. apply Hk. simpl. left.
  - rewrite decide_False by done. by apply IH.
Qed.

(** C8.  [disconnect] returns, and for each of its targets (every key of the
    registry for ['all'], else the given connection, which is in the
    registry) the events that concern the target are, in this order: the
    silent unregister, the shutdown (whose error is tolerated), the close,
    then unless [silent] the [on_disconnect] hook if [normal] and the
    [on_abnormal_disconnect] hook with [msg] if not, and last the removal
    from the registry.  Afterwards the target is neither armed nor in the
    registry. *)
Theorem C8_disconnect (t : target) (normal : bool) (msg : string) (silent : bool)
    (w : world) :
  NoDup (dict_keys (clients w)) →
  (∀ c, t = One c → is_Some (dict_get c (clients w))) →
  ∃ w' evs,
    disconnect t normal msg silent w = Return tt w'
    ∧ trace w' = trace w ++ evs
    ∧ ∀ c, c ∈ targets_of t w →
        List.filter (about c) evs =
          [EvSelUnregister c (bool_decide (is_Some (_epoll w !! c)));
           EvSockShutdown c (match shutdown_error (sock_of c w) with
                             | None => true
                             | Some _ => false
                             end);
           EvSockClose c]
          ++ (if silent then []
              else [hook_event w (if normal then on_disconnect c
                                  else on_abnormal_disconnect c msg)])
          ++ [match t with All => EvClientsClear | One _ => EvClientsDel c end]
        ∧ dict_get c (clients w') = None
        ∧ _epoll w' !! c = None.
Proof.
  intros Hnd Hreg. unfold disconnect, bind.
  destruct t as [|c0]; cbv beta iota zeta.
  - rewrite for_each_disconnect by done. unfold clients_clear.
    eexists _, (flat_map (disconnect_events normal msg silent w) (dict_keys (clients w))
                ++ [EvClientsClear]).
    split; [reflexivity|]. split.
    { cbn [trace set_clients set_trace set_epoll]. by rewrite <- app_assoc. }
    intros c Hc. cbn [targets_of] in Hc. split_and!.
    + by rewrite List.filter_app, filter_about_flat_map.
    + done.
    + cbn [_epoll set_clients set_trace set_epoll].
      rewrite fold_delete_lookup. by rewrite bool_decide_eq_true_2.
  - rewrite for_each_disconnect by (apply NoDup_singleton).
    destruct (Hreg c0 eq_refl) as [client Hclient].
    unfold clients_delitem. cbn [clients set_clients set_trace set_epoll].
    rewrite Hclient.
    eexists _, (disconnect_events normal msg silent w c0 ++ [EvClientsDel c0]).
    split; [reflexivity|]. split.
    { cbn [trace set_clients set_trace set_epoll flat_map].
      by rewrite app_nil_r, <- app_assoc. }
    intros c Hc. apply list_elem_of_singleton in Hc as ->. split_and!.
    + rewrite List.filter_app, filter_about_disconnect_events.
      rewrite decide_True by done. unfold disconnect_events. simpl.
      by rewrite (bool_decide_eq_true_2 (c0 = c0)).
    + by apply dict_get_del_same.
    + apply lookup_delete_eq.
Qed.

(** ** stop *)

Lemma disconnect_all_eq normal msg silent w :
  NoDup (dict_keys (clients w)) →
  disconnect All normal msg silent w =
    Return tt
      (set_clients []
         (set_trace
            (trace w ++ flat_map (disconnect_events normal msg silent w)
                          (dict_keys (clients w)) ++ [EvClientsClear])
            (set_epoll (fold_left (λ m c, delete c m) (dict_keys (clients w)) (_epoll w))
               w))).
Proof.
  intros Hnd. unfold disconnect, bind. cbv beta iota zeta.
  rewrite for_each_disconnect by done. unfold clients_clear.
  generalize (flat_map (disconnect_events normal msg silent w) (dict_keys (clients w))).
  intros evs. destruct w; simpl. unfold set_clients, set_trace, set_epoll; simpl.
  by rewrite <- app_assoc.
Qed.


Lemma for_each_event_set exits : ∀ w,
  for_each exits event_set w =
    Return tt
      (set_stop_events (events_after exits (_stop_events w))
         (set_trace (trace w ++ (EvStageSet <$> exits)) w)).
Proof.
  induction exits as [|s r IH]; intros w.
  - simpl. unfold ret. destruct w; simpl. by rewrite app_nil_r.
  - cbn [for_each]. unfold bind. unfold event_set at 1. rewrite IH.
    destruct w; simpl. unfold set_stop_events, set_trace; simpl.
    by rewrite <- app_assoc.
Qed.

Lemma events_after_spec exits : ∀ f s,
  events_after exits f s = f s || bool_decide (s ∈ exits).
Proof.
  unfold events_after.
  induction exits as [|x r IH]; intros f s; simpl.
  - by rewrite orb_false_r.
  - rewrite IH. destruct (decide (s = x)) as [->|Hne].
    + rewrite (bool_decide_eq_true_2 (x ∈ x :: r)) by left. by rewrite orb_true_r.
    + f_equal. apply bool_decide_ext. rewrite elem_of_cons.
      split; [by right|by intros [?|?]].
Qed.

Lemma for_each_event_wait w :
  for_each all_stages event_wait w =
    if _stop_events w S_recv then
      if _stop_events w S_accept then
        if _stop_events w S_handle_connects then
          Return tt (set_trace (trace w ++ [EvWait S_recv; EvWait S_accept;
                                            EvWait S_handle_connects]) w)
        else Blocked (set_trace (trace w ++ [EvWait S_recv; EvWait S_accept]) w)
      else Blocked (set_trace (trace w ++ [EvWait S_recv]) w)
    else Blocked w.
Proof.
  unfold all_stages, for_each, bind, event_wait, emit, ret.
  destruct w as [cl st sg q ep srv pol evs lk sk th tr]; simpl.
  destruct (evs S_recv); [|done]. simpl.
  destruct (evs S_accept); [|done]. simpl.
  destruct (evs S_handle_connects); unfold set_trace; simpl;
    by rewrite <- ?app_assoc.
Qed.

Lemma world_ext (w1 w2 : world) :
  clients w1 = clients w2 → _started w1 = _started w2 →
  _stop_signal w1 = _stop_signal w2 → _accept_queue w1 = _accept_queue w2 →
  _epoll w1 = _epoll w2 → _server_socket w1 = _server_socket w2 →
  _run_in_subthread w1 = _run_in_subthread w2 → _stop_events w1 = _stop_events w2 →
  locked w1 = locked w2 → socks w1 = socks w2 → threads w1 = threads w2 →
  trace w1 = trace w2 →
  w1 = w2.
Proof. destruct w1, w2; simpl; intros; by subst. Qed.

Lemma stop_eq reason exits w :
  _started w = true →
  NoDup (dict_keys (clients w)) →
  stop reason exits w =
    match for_each all_stages event_wait (stop_waiting exits w) with
    | Return _ w4 =>
        (server_shutdown ;; server_close ;; _call_on_function (on_stop reason)) w4
    | Raise e w4 => Raise e w4
    | Blocked w4 => Blocked w4
    end.
Proof.
  intros Hst Hnd. unfold stop. rewrite Hst. cbn [negb]. cbv iota.
  set (w1 := set_stop_signal true (set_trace (trace w ++ [EvStopSignal]) w)).
  assert (NoDup (dict_keys (clients w1))) as Hnd1 by done.
  pose proof (disconnect_all_eq true "" true w1 Hnd1) as Hd.
  rewrite (flat_map_agree _ (disconnect_events true "" true w)) in Hd
    by (intros c _; by apply disconnect_events_ext).
  rewrite bind_eq.
  change (emit EvStopSignal w)
    with (Return tt (set_trace (trace w ++ [EvStopSignal]) w)).
  cbv beta iota. rewrite bind_eq. cbv beta iota. fold w1.
  rewrite bind_eq, Hd. cbv beta iota.
  rewrite bind_eq, for_each_event_set. cbv beta iota.
  rewrite bind_eq.
  set (W := set_stop_events _ _).
  assert (W = stop_waiting exits w) as ->; [|reflexivity].
  apply world_ext; try reflexivity.
  change (((trace w ++ [EvStopSignal])
           ++ flat_map (disconnect_events true "" true w) (dict_keys (clients w))
           ++ [EvClientsClear]) ++ (EvStageSet <$> exits)
          = trace w ++ [EvStopSignal]
            ++ flat_map (disconnect_events true "" true w) (dict_keys (clients w))
            ++ [EvClientsClear] ++ (EvStageSet <$> exits)).
  generalize (flat_map (disconnect_events true "" true w) (dict_keys (clients w))).
  intros evs. by rewrite <- !app_assoc.
Qed.

Lemma stop_wait_eq exits w :
  for_each all_stages event_wait (stop_waiting exits w) =
    if all_fired exits w then
      Return tt
        (set_trace (trace (stop_waiting exits w)
                    ++ [EvWait S_recv; EvWait S_accept; EvWait S_handle_connects])
           (stop_waiting exits w))
    else
      Blocked
        (set_trace
           (trace (stop_waiting exits w)
            ++ (if _stop_events w S_recv || bool_decide (S_recv ∈ exits) then
                  EvWait S_recv
                  :: (if _stop_events w S_accept || bool_decide (S_accept ∈ exits)
                      then [EvWait S_accept] else [])
                else []))
           (stop_waiting exits w)).
Proof.
  rewrite for_each_event_wait. unfold all_fired, all_stages. cbn [forallb].
  change (_stop_events (stop_waiting exits w))
    with (events_after exits (_stop_events w)).
  rewrite !events_after_spec.
  destruct (_stop_events w S_recv || bool_decide (S_recv ∈ exits)); cbn [andb].
  2: { f_equal. destruct (stop_waiting exits w); unfold set_trace; simpl.
       by rewrite app_nil_r. }
  destruct (_stop_events w S_accept || bool_decide (S_accept ∈ exits)); cbn [andb];
    [|done].
  destruct (_stop_events w S_handle_connects
            || bool_decide (S_handle_connects ∈ exits)); done.
Qed.

(** The last three statements of [stop]. *)
Lemma stop_tail_eq h w :
  (server_shutdown ;; server_close ;; _call_on_function h) w =
    match _server_socket w with
    | Listening =>
        Return tt
          (set_server_socket Closed
             (set_trace (trace w ++ [EvServerShutdown true; EvServerClose;
                                     hook_event w h]) w))
    | Closed =>
        Raise (SocketError EBADF_error)
          (set_trace (trace w ++ [EvServerShutdown false]) w)
    | Unbound | Bound =>
        Raise (SocketError ENOTCONN_error)
          (set_trace (trace w ++ [EvServerShutdown false]) w)
    end.
Proof.
  unfold bind, server_shutdown, server_close.
  destruct (_server_socket w) eqn:E; try reflexivity.
  rewrite _call_on_function_eq. destruct w; simpl in *.
  unfold set_server_socket, set_trace, hook_event; simpl.
  by rewrite <- !app_assoc.
Qed.

(** C7, as the code has it.  [stop] raises [OSError] when the server has not
    been started.  Otherwise it sets the stop flag, then takes every
    connection of the registry out of the selector, shuts it down and closes
    it, in the order of the registry and without calling a hook, and empties
    the registry; then it waits for the three stage events.  As long as one
    of them is missing (it was not set before and is not set by a stage of
    [exits] meanwhile) the caller stays blocked and nothing more has
    happened.  When all three are set it shuts down the listening socket:
    if that socket is listening, it is then closed and [on_stop] is called
    with [reason], in this order; if it is not (a [stop] has closed it
    before, or [start] never got it to listen) the shutdown fails and its
    error leaves [stop]: the socket is not closed and [on_stop] is not
    called. *)
Theorem C7_stop (reason : string) (exits : list stage) (w : world) :
  NoDup (dict_keys (clients w)) →
  if _started w then
    ∃ w' tail,
      world_of (stop reason exits w) = w'
      ∧ trace w' =
          trace w ++ [EvStopSignal]
          ++ flat_map
               (λ c, [EvSelUnregister c (bool_decide (is_Some (_epoll w !! c)));
                      EvSockShutdown c (match shutdown_error (sock_of c w) with
                                        | None => true
                                        | Some _ => false
                                        end);
                      EvSockClose c])
               (dict_keys (clients w))
          ++ [EvClientsClear] ++ (EvStageSet <$> exits) ++ tail
      ∧ _stop_signal w' = true
      ∧ clients w' = []
      ∧ (∀ c, _epoll w' !! c = if bool_decide (c ∈ dict_keys (clients w)) then None
                               else _epoll w !! c)
      ∧ if all_fired exits w then
          match _server_socket w with
          | Listening =>
              stop reason exits w = Return tt w'
              ∧ tail = [EvWait S_recv; EvWait S_accept; EvWait S_handle_connects;
                        EvServerShutdown true; EvServerClose;
                        hook_event w (on_stop reason)]
              ∧ _server_socket w' = Closed
          | Closed =>
              stop reason exits w = Raise (SocketError EBADF_error) w'
              ∧ tail = [EvWait S_recv; EvWait S_accept; EvWait S_handle_connects;
                        EvServerShutdown false]
              ∧ _server_socket w' = Closed
          | Unbound | Bound =>
              stop reason exits w = Raise (SocketError ENOTCONN_error) w'
              ∧ tail = [EvWait S_recv; EvWait S_accept; EvWait S_handle_connects;
                        EvServerShutdown false]
              ∧ _server_socket w' = _server_socket w
          end
        else
          stop reason exits w = Blocked w'
          ∧ Forall (λ e, ∃ s, e = EvWait s) tail
          ∧ _server_socket w' = _server_socket w
  else
    stop reason exits w
      = Raise (OSError "Can't stop server because it has not been started yet") w.
Proof.
  intros Hnd. destruct (_started w) eqn:Hst.
  2: { unfold stop. by rewrite Hst. }
  rewrite (stop_eq _ _ _ Hst Hnd), stop_wait_eq.
  assert (flat_map (disconnect_events true "" true w) (dict_keys (clients w))
          = flat_map
              (λ c, [EvSelUnregister c (bool_decide (is_Some (_epoll w !! c)));
                     EvSockShutdown c (match shutdown_error (sock_of c w) with
                                       | None => true
                                       | Some _ => false
                                       end);
                     EvSockClose c])
              (dict_keys (clients w))) as Hev.
  { apply flat_map_agree. intros c _. unfold disconnect_events. by rewrite app_nil_r. }
  assert (∀ c, _epoll (stop_waiting exits w) !! c
               = if bool_decide (c ∈ dict_keys (clients w)) then None
                 else _epoll w !! c) as Hsel.
  { intros c. unfold stop_waiting. simpl. apply fold_delete_lookup. }
  assert (trace (stop_waiting exits w)
          = trace w ++ [EvStopSignal]
            ++ flat_map
                 (λ c, [EvSelUnregister c (bool_decide (is_Some (_epoll w !! c)));
                        EvSockShutdown c (match shutdown_error (sock_of c w) with
                                          | None => true
                                          | Some _ => false
                                          end);
                        EvSockClose c])
                 (dict_keys (clients w))
            ++ [EvClientsClear] ++ (EvStageSet <$> exits)) as Htr.
  { unfold stop_waiting. simpl. by rewrite Hev. }
  assert (_stop_signal (stop_waiting exits w) = true) as Hsig by done.
  assert (clients (stop_waiting exits w) = []) as Hcl by done.
  assert (_server_socket (stop_waiting exits w) = _server_socket w) as Hsrv by done.
  assert (_run_in_subthread (stop_waiting exits w) = _run_in_subthread w) as Hpol
    by done.
  set (ws := stop_waiting exits w) in *. clearbody ws. clear Hev.
  destruct (all_fired exits w).
  - rewrite stop_tail_eq. cbn [_server_socket set_trace]. rewrite Hsrv.
    destruct (_server_socket w);
      (eexists _, _; split; [reflexivity|];
       cbn [world_of trace clients _stop_signal _epoll _server_socket
            set_trace set_server_socket];
       rewrite Htr;
       split_and!;
       [by rewrite <- !app_assoc|done|done|exact Hsel|reflexivity| |done];
       try reflexivity).
    unfold hook_event. cbn [_run_in_subthread set_trace]. by rewrite Hpol.
  - eexists _, _. split; [reflexivity|].
    cbn [world_of trace clients _stop_signal _epoll _server_socket set_trace].
    rewrite Htr.
    split_and!; [by rewrite <- !app_assoc|done|done|exact Hsel|done| |done].
    destruct (_stop_events w S_recv || bool_decide (S_recv ∈ exits));
      [|constructor].
    destruct (_stop_events w S_accept || bool_decide (S_accept ∈ exits));
      repeat constructor; eauto.
Qed.

(** ** Raw send *)





Lemma filter_ne_cons_fresh (l : nat) (ls : list nat) :
  l ∉ ls → filter (λ x, x ≠ l) (l :: ls) = ls.
Proof.
  intros Hl. rewrite filter_cons_False by (intros H; by apply H).
  induction ls as [|y r IH]; [done|].
  rewrite filter_cons_True by (intros ->; apply Hl; left).
  f_equal. apply IH. intros H. apply Hl. by right.
Qed.


(** C2.  The send lock is an attribute of the class [_ClientInfo], so the
    records of any two connections of the registry answer [send_lock] with
    the same lock; while a sender on one connection holds it, a blocking
    [send_raw] on any other connection of the registry blocks. *)
Theorem C2_send_lock_is_shared (w : world) (c1 c2 : conn)
    (client1 client2 : _ClientInfo) (data : bytes) :
  c1 ≠ c2 →
  dict_get c1 (clients w) = Some client1 →
  dict_get c2 (clients w) = Some client2 →
  send_lock client1 = send_lock client2
  ∧ (send_lock client1 ∈ locked w → send_raw c2 data true w = Blocked w).
Proof.
  intros _ H1 H2. split; [reflexivity|]. intros Hheld.
  unfold send_raw. rewrite bind_eq. unfold clients_getitem. rewrite H2.
  rewrite bind_eq. cbn [when]. unfold lock_acquire.
  by rewrite bool_decide_eq_true_2.
Qed.

(** ** Keeping a relation along a computation *)

Section Always.
Context (R : world → world → Prop) `{!Reflexive R} `{!Transitive R}.

Lemma always_ret {A} (a : A) : always R (ret a).
Proof. intros w. simpl. reflexivity. Qed.

Lemma always_raise {A} e : always R (@raise A e).
Proof. intros w. simpl. reflexivity. Qed.

Lemma always_bind {A B} (m : M A) (f : A → M B) :
  always R m → (∀ a, always R (f a)) → always R (bind m f).
Proof.
  intros Hm Hf w. specialize (Hm w). unfold bind.
  destruct (m w) as [a w1|e w1|w1]; simpl in *; [|done..].
  etrans; [exact Hm|apply Hf].
Qed.

Lemma always_try_except {A} (body : M A) catches handler :
  always R body → (∀ e, always R (handler e)) →
  always R (try_except body catches handler).
Proof.
  intros Hb Hh w. specialize (Hb w). unfold try_except.
  destruct (body w) as [a w1|e w1|w1]; simpl in *; [done| |done].
  destruct (catches e); [|done]. etrans; [exact Hb|apply Hh].
Qed.

Lemma always_try_finally {A} (body : M A) fin :
  always R body → always R fin → always R (try_finally body fin).
Proof.
  intros Hb Hf w. specialize (Hb w). unfold try_finally.
  destruct (body w) as [a w1|e w1|w1]; simpl in *; [| |done].
  - specialize (Hf w1). destruct (fin w1); simpl in *; by etrans.
  - specialize (Hf w1). destruct (fin w1); simpl in *; by etrans.
Qed.

Lemma always_for_each {A} (l : list A) (f : A → M unit) :
  (∀ x, always R (f x)) → always R (for_each l f).
Proof.
  intros Hf. induction l as [|x r IH]; simpl.
  - apply always_ret.
  - apply always_bind; [apply Hf|]. intros _. exact IH.
Qed.

Lemma always_when b (m : M unit) : always R m → always R (when b m).
Proof. intros Hm. destruct b; [exact Hm|apply always_ret]. Qed.
End Always.

(** ** Quiet steps *)

Global Instance quiet_step_refl P : Reflexive (quiet_step P).
Proof.
  intros w. split_and!; try done. exists []. by rewrite app_nil_r.
Qed.

Global Instance quiet_step_trans P : Transitive (quiet_step P).
Proof.
  intros w1 w2 w3 (Hc & He & Ht & evs & Htr & Hev) (Hc' & He' & Ht' & evs' & Htr' & Hev').
  split_and!; [congruence..|].
  exists (evs ++ evs'). split; [rewrite Htr', Htr; by rewrite app_assoc|].
  by apply Forall_app.
Qed.

Lemma quiet_step_weaken (P Q : event → bool) w w' :
  (∀ e, P e = true → Q e = true) → quiet_step P w w' → quiet_step Q w w'.
Proof.
  intros HPQ (Hc & He & Ht & evs & Htr & Hev). split_and!; try done.
  exists evs. split; [done|]. eapply Forall_impl; [exact Hev|]. exact HPQ.
Qed.

Lemma quiet_none P w w' :
  clients w' = clients w → _epoll w' = _epoll w → threads w' = threads w →
  trace w' = trace w → quiet_step P w w'.
Proof.
  intros. split_and!; try done. exists []. by rewrite app_nil_r.
Qed.

Lemma quiet_one P e w w' :
  clients w' = clients w → _epoll w' = _epoll w → threads w' = threads w →
  trace w' = trace w ++ [e] → P e = true → quiet_step P w w'.
Proof.
  intros. split_and!; try done. exists [e]. split; [done|]. by constructor.
Qed.

Ltac quiet :=
  first [ by apply quiet_none | by eapply quiet_one ].

Lemma quiet_emit P e : P e = true → always (quiet_step P) (emit e).
Proof. intros He w. unfold emit. simpl. quiet. Qed.

Lemma quiet_server_bind P answer :
  (∀ ok, P (EvServerBind ok) = true) → always (quiet_step P) (server_bind answer).
Proof.
  intros HP w. unfold server_bind.
  destruct (_server_socket w), answer; simpl; eapply quiet_one; try done; apply HP.
Qed.

Lemma quiet_server_listen P answer :
  (∀ ok, P (EvServerListen ok) = true) →
  always (quiet_step P) (server_listen answer).
Proof.
  intros HP w. unfold server_listen.
  destruct (_server_socket w), answer; simpl; eapply quiet_one; try done; apply HP.
Qed.

Lemma quiet_server_shutdown P :
  (∀ ok, P (EvServerShutdown ok) = true) → always (quiet_step P) server_shutdown.
Proof.
  intros HP w. unfold server_shutdown.
  destruct (_server_socket w); simpl; eapply quiet_one; try done; apply HP.
Qed.

Lemma quiet_server_close P :
  P EvServerClose = true → always (quiet_step P) server_close.
Proof. intros HP w. unfold server_close. simpl. by eapply quiet_one. Qed.

Lemma quiet_server_epoll_register P : always (quiet_step P) server_epoll_register.
Proof.
  intros w. unfold server_epoll_register. destruct (_server_socket w); simpl; quiet.
Qed.

Lemma quiet_call_on_function P h :
  (∀ m, P (EvHook m h) = true) → always (quiet_step P) (_call_on_function h).
Proof.
  intros Hh w. rewrite _call_on_function_eq. simpl.
  eapply quiet_one; try done. apply Hh.
Qed.

Lemma quiet_conn_recv c size : always (quiet_step plain) (conn_recv c size).
Proof.
  intros w. unfold conn_recv. destruct size as [|n]; [simpl; quiet|].
  destruct (rx (sock_of c w)) as [|[bs|e] r]; simpl; quiet.
Qed.

Lemma quiet_conn_send c buf : always (quiet_step plain) (conn_send c buf).
Proof.
  intros w. unfold conn_send.
  destruct (tx (sock_of c w)) as [|[k|e] r]; simpl; quiet.
Qed.

Lemma quiet_conn_shutdown c : always (quiet_step plain) (conn_shutdown c).
Proof.
  intros w. unfold conn_shutdown.
  destruct (shutdown_error (sock_of c w)); simpl; quiet.
Qed.

Lemma quiet_lock_acquire l : always (quiet_step plain) (lock_acquire l).
Proof. intros w. unfold lock_acquire. case_bool_decide; simpl; quiet. Qed.

Lemma quiet_lock_release l : always (quiet_step plain) (lock_release l).
Proof. intros w. unfold lock_release. case_bool_decide; simpl; quiet. Qed.

Lemma quiet_clients_getitem c : always (quiet_step plain) (clients_getitem c).
Proof.
  intros w. unfold clients_getitem. destruct (dict_get c (clients w)); simpl; quiet.
Qed.

Lemma quiet_event_set s : always (quiet_step plain) (event_set s).
Proof. intros w. unfold event_set. simpl. quiet. Qed.

Lemma quiet_event_wait s : always (quiet_step plain) (event_wait s).
Proof.
  intros w. unfold event_wait, emit. destruct (_stop_events w s); simpl; quiet.
Qed.

Lemma quiet_recv_raw c size : always (quiet_step plain) (recv_raw c size).
Proof.
  intros w. pose proof (quiet_conn_recv c size w) as H. unfold recv_raw.
  destruct (conn_recv c size w) as [[|b bs] w1|[] w1|w1]; simpl in *; try done.
  by destruct (_ || _).
Qed.

Lemma quiet_send_loop c data to_send : ∀ fuel total_sent,
  always (quiet_step plain) (send_loop fuel c data to_send total_sent).
Proof.
  induction fuel as [|fuel IH]; intros total_sent; simpl.
  - destruct (_ <? _); apply always_ret; apply _.
  - destruct (_ <? _); [|apply always_ret; apply _].
    apply always_bind; [apply _|apply quiet_conn_send|]. intros sent.
    destruct (sent =? 0); [apply always_raise; apply _|apply IH].
Qed.

Lemma quiet_send_raw c data block : always (quiet_step plain) (send_raw c data block).
Proof.
  unfold send_raw. apply always_bind; [apply _|apply quiet_clients_getitem|].
  intros client. apply always_bind; [apply _| |].
  - apply always_when; [apply _|apply quiet_lock_acquire].
  - intros _. apply always_try_finally; [apply _..|apply quiet_send_loop|].
    apply always_when; [apply _|apply quiet_lock_release].
Qed.

Lemma quiet_start b l : always (quiet_step plain) (start b l).
Proof.
  intros w. unfold start. destruct (_started w); [simpl; quiet|].
  revert w. change (always (quiet_step plain)
    (emit EvStartedFlag ;;
     (fun w1 => Return tt (set_started true w1)) ;;
     server_bind b ;; server_listen l ;;
     for_each all_stages (fun s => emit (EvStageStart s)) ;;
     _call_on_function on_start)).
  apply always_bind; [apply _|by apply quiet_emit|intros _].
  apply always_bind; [apply _|intros w; simpl; quiet|intros _].
  apply always_bind; [apply _|by apply quiet_server_bind|intros _].
  apply always_bind; [apply _|by apply quiet_server_listen|intros _].
  apply always_bind; [apply _| |intros _].
  - apply always_for_each; [apply _..|]. intros s. by apply quiet_emit.
  - by apply quiet_call_on_function.
Qed.

Lemma quiet_run_in_subthread f b : always (quiet_step plain) (run_in_subthread f b).
Proof. intros w. unfold run_in_subthread. destruct f; simpl; quiet. Qed.

Lemma quiet_accept_loop script : always (quiet_step plain) (_accept_loop script).
Proof.
  induction script as [|[c a| |e] r IH]; intros w; simpl;
    destruct (_stop_signal w); simpl; try quiet.
  - etrans; [|apply IH]. quiet.
  - apply IH.
Qed.

(** ** What every relation of interest is kept by *)

Section Keeps.
Context (R : world → world → Prop) `{!Reflexive R} `{!Transitive R}.
Hypothesis R_quiet : ∀ w w', quiet_step plain w w' → R w w'.
Hypothesis R_unregister : ∀ c, always R (epoll_unregister c).
Hypothesis R_delitem : ∀ c, always R (clients_delitem c).
Hypothesis R_clear : always R clients_clear.

Lemma keeps_quiet {A} (m : M A) : always (quiet_step plain) m → always R m.
Proof. intros H w. apply R_quiet, H. Qed.

Lemma keeps_unregister c silent : always R (unregister c silent).
Proof.
  unfold unregister. apply always_try_except; [apply _..|apply R_unregister|].
  intros _. destruct silent; [apply always_ret|apply always_raise]; apply _.
Qed.

Lemma keeps_disconnect_one normal msg silent c :
  always R (disconnect_one normal msg silent c).
Proof.
  unfold disconnect_one.
  apply always_bind; [apply _|apply keeps_unregister|intros _].
  apply always_bind; [apply _| |intros _].
  { apply always_try_except; [apply _..| |].
    - apply keeps_quiet, quiet_conn_shutdown.
    - intros _. apply always_ret; apply _. }
  apply always_bind; [apply _| |intros _].
  { apply keeps_quiet. by apply quiet_emit. }
  destruct (normal && negb silent).
  { apply keeps_quiet. by apply quiet_call_on_function. }
  destruct (negb silent).
  { apply keeps_quiet. by apply quiet_call_on_function. }
  apply always_ret; apply _.
Qed.

Lemma keeps_disconnect t normal msg silent :
  always R (disconnect t normal msg silent).
Proof.
  intros w. unfold disconnect.
  apply always_bind; [apply _| |intros _].
  - apply always_for_each; [apply _..|]. apply keeps_disconnect_one.
  - destruct t; [apply R_clear|apply R_delitem].
Qed.

Lemma keeps_stop reason exits : always R (stop reason exits).
Proof.
  intros w. unfold stop. destruct (negb (_started w)); [simpl; reflexivity|].
  revert w. change (always R
    (emit EvStopSignal ;;
     (fun w1 => Return tt (set_stop_signal true w1)) ;;
     disconnect All true "" true ;;
     for_each exits event_set ;;
     for_each all_stages event_wait ;;
     server_shutdown ;; server_close ;;
     _call_on_function (on_stop reason))).
  apply always_bind; [apply _|apply keeps_quiet; by apply quiet_emit|intros _].
  apply always_bind; [apply _|intros w; simpl; apply R_quiet; quiet|intros _].
  apply always_bind; [apply _|apply keeps_disconnect|intros _].
  apply always_bind; [apply _| |intros _].
  { apply always_for_each; [apply _..|]. intros s.
    apply keeps_quiet, quiet_event_set. }
  apply always_bind; [apply _| |intros _].
  { apply always_for_each; [apply _..|]. intros s.
    apply keeps_quiet, quiet_event_wait. }
  apply always_bind;
    [apply _|apply keeps_quiet; by apply quiet_server_shutdown|intros _].
  apply always_bind; [apply _|apply keeps_quiet; by apply quiet_server_close|intros _].
  apply keeps_quiet. by apply quiet_call_on_function.
Qed.

Lemma keeps_stage_finally s reason exits :
  always R (stage_finally s reason exits).
Proof.
  unfold stage_finally.
  apply always_bind; [apply _|apply keeps_quiet, quiet_event_set|intros _].
  intros w. destruct (negb (_stop_signal w)); [apply keeps_stop|simpl; reflexivity].
Qed.

Lemma keeps_accept script exits : always R (_accept script exits).
Proof.
  unfold _accept.
  apply always_bind;
    [apply _|apply keeps_quiet, quiet_server_epoll_register|intros _].
  apply always_try_finally; [apply _..| |].
  - apply keeps_quiet, quiet_accept_loop.
  - apply keeps_stage_finally.
Qed.

Lemma keeps_send_raw c data block : always R (send_raw c data block).
Proof. apply keeps_quiet, quiet_send_raw. Qed.
End Keeps.

(** ** [on_recv] only after [register] *)

Global Instance preserves_refl I : Reflexive (preserves I).
Proof. by intros w H. Qed.

Global Instance preserves_trans I : Transitive (preserves I).
Proof. intros w1 w2 w3 H12 H23 H. by apply H23, H12. Qed.


Lemma split_in_app {A} (t evs t1 t2 : list A) (x : A) :
  t ++ evs = t1 ++ x :: t2 →
  (∃ t2', t = t1 ++ x :: t2') ∨ (∃ evs1, evs = evs1 ++ x :: t2 ∧ t1 = t ++ evs1).
Proof.
  revert t1. induction t as [|y t IH]; intros t1 H; simpl in *.
  - right. by exists t1.
  - destruct t1 as [|z t1]; simpl in *.
    + injection H as -> <-. left. by exists t.
    + injection H as -> H. destruct (IH _ H) as [(t2' & ->)|(evs1 & -> & ->)].
      * left. by exists t2'.
      * right. by exists evs1.
Qed.





Lemma plain_not_dispatch e : plain e = true → not_dispatch e = true.
Proof. by destruct e as [? []| | | | | | | | | | | | | | | | | | | | | |]. Qed.













Global Instance extends_refl : Reflexive extends.
Proof. intros w. unfold extends. done. Qed.

Global Instance extends_trans : Transitive extends.
Proof. intros w1 w2 w3. unfold extends. by etrans. Qed.

Lemma quiet_extends P w w' : quiet_step P w w' → extends w w'.
Proof. intros (_ & _ & _ & evs & Htr & _). exists evs. done. Qed.


Lemma extends_recv g c size : always extends (recv g c size).
Proof.
  intros w. pose proof (quiet_extends _ _ _ (quiet_recv_raw c size w)) as Hq.
  unfold recv. destruct (recv_raw c size w) as [d w1|err w1|w1]; simpl in *; [| |done].
  - etrans; [exact Hq|]. rewrite bind_eq, _call_on_function_eq. simpl. by eexists.
  - destruct (is_ClientDisconnect err).
    { etrans; [exact Hq|]. rewrite bind_eq, _call_on_function_eq. simpl. by eexists. }
    destruct (is_ClientAbnormalDisconnect err); [|done].
    destruct (g err 0); [done|].
    etrans; [exact Hq|]. rewrite bind_eq, _call_on_function_eq. simpl. by eexists.
Qed.

Lemma extends_call_callback g f args : always extends (call_callback g f args).
Proof.
  intros w. destruct f, args as [|c [|]]; simpl; try reflexivity.
  rewrite bind_eq. pose proof (extends_recv g c 4096 w) as H.
  by destruct (recv g c 4096 w).
Qed.

Lemma extends_dispatch g key : always extends (dispatch g key).
Proof.
  intros w. unfold dispatch. rewrite bind_eq, unregister_eq.
  destruct (_epoll w !! fileobj key); [|simpl; by eexists].
  set (w1 := set_epoll _ _). assert (extends w w1) as H1 by (by eexists).
  destruct (_run_in_subthread w1 K_client_callback).
  - simpl. by eexists (_ :: _ :: []); rewrite <- app_assoc.
  - rewrite bind_eq. unfold emit. etrans; [exact H1|].
    etrans; [|apply extends_call_callback]. simpl. by eexists.
Qed.


Lemma extends_for_each_dispatch g keys : always extends (for_each keys (dispatch g)).
Proof. apply always_for_each; [apply _..|]. apply extends_dispatch. Qed.









(** *** What admission does *)

Lemma handle_connect_eq entry w :
  handle_connect entry w =
    Return tt
      (set_clients
         (dict_set entry.1
            {| address_of := entry.2; callback_function := Bound_recv;
               callback_args := [entry.1] |} (clients w))
         (set_trace (trace w ++ [EvSetBlocking entry.1 false; EvClientsSet entry.1;
                                 hook_event w (on_connect entry.1)]) w)).
Proof.
  unfold handle_connect. rewrite bind_eq. unfold conn_setblocking, emit. cbv beta iota.
  rewrite bind_eq. unfold clients_setitem. cbv beta iota.
  rewrite _call_on_function_eq. destruct w; simpl.
  unfold set_clients, set_trace, hook_event; simpl. by rewrite <- !app_assoc.
Qed.



Lemma dict_get_set_same {V} c (v : V) d : dict_get c (dict_set c v d) = Some v.
Proof.
  induction d as [|[k x] r IH]; simpl.
  - by rewrite decide_True.
  - destruct (decide (k = c)) as [->|Hne]; simpl.
    + by rewrite decide_True.
    + by rewrite decide_False.
Qed.


(** ** One dispatch in flight per connection *)

Lemma dispatch_preceded_app t evs :
  dispatch_preceded t →
  (∀ evs1 m c f a evs2, evs = evs1 ++ EvDispatch m c f a :: evs2 →
     ∃ t0, t ++ evs1 = t0 ++ [EvSelUnregister c true]) →
  dispatch_preceded (t ++ evs).
Proof.
  intros Ht Hevs t1 m c f a t2 H.
  destruct (split_in_app _ _ _ _ _ H) as [(t2' & ->)|(evs1 & -> & ->)].
  - by eapply Ht.
  - by eapply Hevs.
Qed.

Lemma no_dispatch_in evs evs1 m c f a evs2 :
  Forall (λ e, not_dispatch e = true) evs →
  evs = evs1 ++ EvDispatch m c f a :: evs2 → False.
Proof.
  intros H ->. apply Forall_app in H as [_ H]. by apply Forall_cons in H as [? _].
Qed.

Lemma one_shot_frame w w' evs :
  threads w' = threads w →
  (∀ c, _epoll w !! c = None → _epoll w' !! c = None) →
  trace w' = trace w ++ evs →
  Forall (λ e, not_dispatch e = true) evs →
  preserves one_shot w w'.
Proof.
  intros Hth Hep Htr Hev (Ka & Kb & Kc). unfold one_shot, in_flight in *.
  rewrite Hth, Htr. split_and!; [done|auto|].
  apply dispatch_preceded_app; [done|]. intros evs1 m c f a evs2 Heq.
  by destruct (no_dispatch_in _ _ _ _ _ _ _ Hev Heq).
Qed.

Lemma one_shot_quiet w w' :
  quiet_step not_dispatch w w' → preserves one_shot w w'.
Proof.
  intros (_ & He & Ht & evs & Htr & Hev).
  apply (one_shot_frame _ _ evs); try done. intros c. by rewrite He.
Qed.

Lemma one_shot_plain w w' : quiet_step plain w w' → preserves one_shot w w'.
Proof.
  intros H. apply one_shot_quiet.
  eapply quiet_step_weaken; [|exact H]. apply plain_not_dispatch.
Qed.

Lemma one_shot_unregister c : always (preserves one_shot) (epoll_unregister c).
Proof.
  intros w. unfold epoll_unregister. destruct (_epoll w !! c) eqn:E; simpl.
  - apply (one_shot_frame _ _ [EvSelUnregister c true]); simpl; try done.
    + intros k Hk. destruct (decide (k = c)) as [->|];
        [apply lookup_delete_eq|by rewrite lookup_delete_ne].
    + by repeat constructor.
  - apply one_shot_plain. quiet.
Qed.

Lemma one_shot_delitem c : always (preserves one_shot) (clients_delitem c).
Proof.
  intros w. unfold clients_delitem. destruct (dict_get c (clients w)); simpl; [|done].
  apply (one_shot_frame _ _ [EvClientsDel c]); simpl; try done.
  by repeat constructor.
Qed.

Lemma one_shot_clear : always (preserves one_shot) clients_clear.
Proof.
  intros w. unfold clients_clear. simpl.
  apply (one_shot_frame _ _ [EvClientsClear]); simpl; try done.
  by repeat constructor.
Qed.

Lemma one_shot_register c silent w :
  c ∉ in_flight w →
  preserves one_shot w (world_of (register c silent w)).
Proof.
  intros Hc. destruct (dict_get c (clients w)) as [client|] eqn:Hreg.
  2: { unfold register, bind, clients_getitem. rewrite Hreg. simpl. reflexivity. }
  rewrite (register_in_registry _ _ _ _ Hreg).
  destruct (_epoll w !! c) eqn:He.
  - apply one_shot_plain. destruct silent; simpl; quiet.
  - simpl. intros (Ka & Kb & Kc). unfold one_shot, in_flight in *. simpl.
    split_and!; [done| |].
    + intros k Hk. rewrite lookup_insert_ne; [by apply Kb|]. by intros ->.
    + apply dispatch_preceded_app; [done|]. intros [|? [|]] ??????; done.
Qed.

Lemma one_shot_handle_connect entry : always (preserves one_shot) (handle_connect entry).
Proof.
  intros w. rewrite handle_connect_eq. simpl.
  eapply one_shot_frame; simpl; try done. unfold hook_event.
  by repeat constructor.
Qed.

Lemma quiet_recv g c size : always (quiet_step not_dispatch) (recv g c size).
Proof.
  intros w. pose proof (quiet_recv_raw c size w) as Hq.
  apply (quiet_step_weaken _ _ _ _ plain_not_dispatch) in Hq. unfold recv.
  destruct (recv_raw c size w) as [d w1|err w1|w1]; simpl in *; [| |done].
  - etrans; [exact Hq|]. rewrite bind_eq, _call_on_function_eq. simpl. quiet.
  - destruct (is_ClientDisconnect err).
    { etrans; [exact Hq|]. rewrite bind_eq, _call_on_function_eq. simpl. quiet. }
    destruct (is_ClientAbnormalDisconnect err); [|done].
    destruct (g err 0); [done|].
    etrans; [exact Hq|]. rewrite bind_eq, _call_on_function_eq. simpl. quiet.
Qed.

Lemma quiet_call_callback g f args :
  always (quiet_step not_dispatch) (call_callback g f args).
Proof.
  intros w. destruct f, args as [|c [|]]; simpl; try reflexivity.
  rewrite bind_eq. pose proof (quiet_recv g c 4096 w) as H.
  by destruct (recv g c 4096 w).
Qed.

Lemma one_shot_thread_run g i : always (preserves one_shot) (thread_run g i).
Proof.
  intros w. unfold thread_run. destruct (threads w !! i) as [th|] eqn:Hth; [|done].
  pose proof (quiet_call_callback g (th_target th) (th_args th) w) as Hq.
  apply one_shot_quiet in Hq. simpl.
  etrans; [exact Hq|]. intros (Ka & Kb & Kc). unfold one_shot, in_flight in *. simpl.
  rewrite list_fmap_delete. split_and!.
  - eapply sublist_NoDup; [exact Ka|apply sublist_delete].
  - intros c Hc. apply Kb. by eapply list_elem_of_delete_inv.
  - done.
Qed.

Lemma one_shot_dispatch g key : always (preserves one_shot) (dispatch g key).
Proof.
  intros w K. unfold dispatch. rewrite bind_eq, unregister_eq.
  destruct (_epoll w !! fileobj key) as [d|] eqn:He.
  2: { simpl. revert K. apply one_shot_plain. quiet. }
  destruct K as (Ka & Kb & Kc). unfold one_shot, in_flight in *.
  assert (fileobj key ∉ th_key <$> threads w) as Hfresh.
  { intros Hin. specialize (Kb _ Hin). congruence. }
  set (w1 := set_epoll _ _).
  assert (dispatch_preceded
            (trace w1 ++ [EvDispatch (if _run_in_subthread w1 K_client_callback
                                      then Threaded else Inline)
                            (fileobj key) (data key).1 (data key).2])) as Hpre.
  { apply dispatch_preceded_app.
    - unfold w1. simpl. apply dispatch_preceded_app; [done|].
      intros [|? [|]] ??????; done.
    - unfold w1. simpl.
      intros [|? [|]] ????? Heq; simplify_eq/=. rewrite app_nil_r. by eexists. }
  destruct (_run_in_subthread w1 K_client_callback).
  - simpl in *. rewrite fmap_app. simpl. split_and!.
    + apply NoDup_app. split_and!; [done| |apply NoDup_singleton].
      intros x Hx Hx'. apply list_elem_of_singleton in Hx' as ->. done.
    + intros c Hc. apply elem_of_app in Hc as [Hc|Hc].
      * destruct (decide (c = fileobj key)) as [->|];
          [apply lookup_delete_eq|rewrite lookup_delete_ne by done; by apply Kb].
      * apply list_elem_of_singleton in Hc as ->. apply lookup_delete_eq.
    + done.
  - rewrite bind_eq. unfold emit.
    set (w2 := set_trace _ w1).
    pose proof (quiet_call_callback g (data key).1 (data key).2 w2) as Hq.
    apply one_shot_quiet in Hq. apply Hq. unfold one_shot, in_flight. simpl.
    split_and!; [done| |done].
    intros c Hc. destruct (decide (c = fileobj key)) as [->|];
      [apply lookup_delete_eq|rewrite lookup_delete_ne by done; by apply Kb].
Qed.

Lemma one_shot_recv_loop g polls : always (preserves one_shot) (_recv_loop g polls).
Proof.
  induction polls as [|ready rest IH]; intros w; simpl;
    destruct (_stop_signal w); try reflexivity.
  rewrite bind_eq. unfold epoll_select. cbv beta iota. rewrite bind_eq.
  set (keys := omap _ ready).
  pose proof (always_for_each (preserves one_shot) keys (dispatch g)
                (one_shot_dispatch g) w) as Hd.
  destruct (for_each keys (dispatch g) w) as [[] w1|e w1|w1];
    simpl in *; [|done..].
  etrans; [exact Hd|apply IH].
Qed.

Lemma one_shot_handle_connects_loop rounds :
  always (preserves one_shot) (_handle_connects_loop rounds).
Proof.
  induction rounds as [|rounds IH]; intros w; simpl;
    destruct (_stop_signal w); try reflexivity.
  destruct (_accept_queue w) as [|entry rest]; [apply IH|].
  trans (set_accept_queue rest w).
  { apply one_shot_plain. by apply quiet_none. }
  exact (always_bind _ _ _ (one_shot_handle_connect entry) (λ _, IH) _).
Qed.

Lemma one_shot_stage_finally s reason exits :
  always (preserves one_shot) (stage_finally s reason exits).
Proof.
  apply keeps_stage_finally; try apply _.
  - apply one_shot_plain.
  - apply one_shot_unregister.
  - apply one_shot_delitem.
  - apply one_shot_clear.
Qed.

Lemma one_shot_perform g a w :
  match a with Do_register c _ => c ∉ in_flight w | _ => True end →
  preserves one_shot w (exec g a w).
Proof.
  unfold exec. destruct a; cbn [perform]; intros Hd.
  - apply keeps_quiet; [apply one_shot_plain|apply quiet_start].
  - apply keeps_stop; try apply _.
    + apply one_shot_plain.
    + apply one_shot_unregister.
    + apply one_shot_delitem.
    + apply one_shot_clear.
  - apply keeps_accept; try apply _.
    + apply one_shot_plain.
    + apply one_shot_unregister.
    + apply one_shot_delitem.
    + apply one_shot_clear.
  - exact (always_try_finally _ _ _ (one_shot_handle_connects_loop rounds)
             (one_shot_stage_finally _ _ exits) w).
  - exact (always_try_finally _ _ _ (one_shot_recv_loop g polls)
             (one_shot_stage_finally _ _ exits) w).
  - apply one_shot_thread_run.
  - by apply one_shot_register.
  - apply keeps_unregister; try apply _. apply one_shot_unregister.
  - apply keeps_quiet; [apply one_shot_plain|apply quiet_send_raw].
  - apply keeps_disconnect; try apply _.
    + apply one_shot_plain.
    + apply one_shot_unregister.
    + apply one_shot_delitem.
    + apply one_shot_clear.
  - apply keeps_quiet; [apply one_shot_plain|apply quiet_run_in_subthread].
Qed.

Lemma one_shot_init env : one_shot (init_world env).
Proof.
  split_and!; simpl.
  - constructor.
  - intros c Hc. by apply elem_of_nil in Hc.
  - intros [|? ?] ??????; done.
Qed.

Lemma one_shot_run g acts : ∀ w,
  one_shot w → disciplined g acts w → one_shot (run g acts w).
Proof.
  induction acts as [|a r IH]; intros w K Hd; simpl; [done|].
  destruct Hd as [Ha Hr]. apply IH; [|done]. by apply (one_shot_perform g a w).
Qed.

(** C3, as the code has it.  In every run of the server from its
    construction, every dispatch of a receive callback, inline or on a
    thread, comes right after the successful unregister of its connection.
    As long as the application registers a connection only while no receive
    dispatch for it is in flight, no connection ever has two dispatches in
    flight, and a connection with a dispatch in flight is not in the watch
    set. *)
Theorem C3_unregister_then_dispatch (g : exn → nat → exn + string)
    (env : gmap nat sock) (acts : list action) :
  disciplined g acts (init_world env) →
  dispatch_preceded (trace (run g acts (init_world env)))
  ∧ NoDup (in_flight (run g acts (init_world env)))
  ∧ ∀ c, c ∈ in_flight (run g acts (init_world env)) →
         _epoll (run g acts (init_world env)) !! c = None.
Proof.
  intros Hd.
  destruct (one_shot_run g acts _ (one_shot_init env) Hd) as (Ka & Kb & Kc).
  done.
Qed.

(** ** The theorems at work *)

(** Nothing is pending on connection 7: [recv] raises [WouldBlock] and calls no
    hook. *)
Lemma C1_would_block_witness :
  recv not_subscriptable 7 4096 w_two =
    Raise (WouldBlock "Tried to read client socket but no data was available")
      (world_of (conn_recv 7 4096 w_two))
  ∧ hooks_of (trace (world_of (conn_recv 7 4096 w_two))) = hooks_of (trace w_two).
Proof.
  apply (C1_would_block_leaves_recv not_subscriptable 7 4096 w_two would_block_error).
  - vm_compute. reflexivity.
  - left. reflexivity.
Defined.

(** With the receive dispatch inline, a readiness report with nothing to
    read ends the dispatch loop: [WouldBlock] leaves [recv], the stage takes
    it for a fault and stops the server. *)
Example spurious_wakeup_stops_server :
  hooks_of (trace (run not_subscriptable spurious_wakeup_inline (init_world env_two)))
    = [on_start; on_connect 7; on_connect 8; on_stop "Error in _recv"]
  ∧ _stop_signal (run not_subscriptable spurious_wakeup_inline (init_world env_two))
    = true.
Proof. vm_compute. done. Qed.

(** On the abnormal path the hook gets [err[0]]: the message when exception
    objects can be indexed, and otherwise the indexing raises and no hook is
    called. *)
Example abnormal_disconnect_indexes_the_exception :
  hooks_of (trace (world_of (recv args_getitem 7 4096 w_reset)))
    = [on_start; on_connect 7;
       on_abnormal_disconnect 7
         "socket.error while receiving: [Errno 104] Connection reset by peer"]
  ∧ recv not_subscriptable 7 4096 w_reset
    = Raise (TypeError "exception object is not subscriptable")
        (world_of (conn_recv 7 4096 w_reset))
  ∧ hooks_of (trace (world_of (recv not_subscriptable 7 4096 w_reset)))
    = [on_start; on_connect 7].
Proof. vm_compute. done. Qed.

(** While the sender on connection 7 holds the lock, a blocking send on
    connection 8 blocks. *)
Lemma C2_shared_lock_witness :
  send_lock client7 = send_lock client8
  ∧ send_raw 8 ["x"%byte] true w_two_sending = Blocked w_two_sending.
Proof.
  destruct (C2_send_lock_is_shared w_two_sending 7 8 client7 client8 ["x"%byte])
    as [Heq Hblocked].
  - discriminate.
  - vm_compute. reflexivity.
  - vm_compute. reflexivity.
  - split; [exact Heq|]. apply Hblocked. vm_compute. left.
Defined.

(** Arming a connection again while its dispatch thread is still running
    puts it into the watch set with a dispatch in flight, and the next
    readiness report starts a second dispatch beside the first. *)
Lemma C3_rearm_during_dispatch :
  in_flight (run not_subscriptable (take 6 rearm_during_dispatch) (init_world env_two))
    = [7]
  ∧ _epoll (run not_subscriptable (take 6 rearm_during_dispatch) (init_world env_two))
      !! 7 = Some (Bound_recv, [7])
  ∧ in_flight (run not_subscriptable rearm_during_dispatch (init_world env_two))
    = [7; 7]
  ∧ ¬ NoDup (in_flight (run not_subscriptable rearm_during_dispatch (init_world env_two))).
Proof.
  assert (in_flight (run not_subscriptable rearm_during_dispatch (init_world env_two))
          = [7; 7]) as H by (vm_compute; reflexivity).
  split_and!; [vm_compute; reflexivity..|exact H|].
  rewrite H. intros Hnd. apply NoDup_cons in Hnd as [Hnd _]. apply Hnd. left.
Qed.

(** Arming the connection again after its dispatch thread has ended keeps
    everything in order. *)
Lemma C3_one_shot_witness :
  dispatch_preceded
    (trace (run not_subscriptable rearm_after_dispatch (init_world env_two)))
  ∧ NoDup (in_flight (run not_subscriptable rearm_after_dispatch (init_world env_two)))
  ∧ ∀ c, c ∈ in_flight (run not_subscriptable rearm_after_dispatch (init_world env_two)) →
         _epoll (run not_subscriptable rearm_after_dispatch (init_world env_two)) !! c
           = None.
Proof.
  apply (C3_unregister_then_dispatch not_subscriptable env_two rearm_after_dispatch).
  vm_compute. repeat split; intros H; inversion H.
Defined.



(** A second [stop] goes as far as the shutdown of the listening socket,
    which the first one has closed: it raises, and [on_stop] is not called
    for it. *)
Lemma C7_second_stop_raises :
  _started w_stopped = true
  ∧ stop "again" all_stages w_stopped
    = Raise (SocketError EBADF_error) (world_of (stop "again" all_stages w_stopped))
  ∧ hooks_of (trace (world_of (stop "again" all_stages w_stopped)))
    = [on_start; on_connect 7; on_connect 8; on_stop ""].
Proof. vm_compute. done. Qed.

(** Stopping the started server while all three stages leave their loops:
    both clients are out of the selector and the listening socket is
    closed. *)
Lemma C7_stop_witness :
  ∃ w', stop "" all_stages w_two = Return tt w'
        ∧ clients w' = [] ∧ _stop_signal w' = true
        ∧ _epoll w' !! 7 = None ∧ _epoll w' !! 8 = None
        ∧ _server_socket w' = Closed.
Proof.
  pose proof (C7_stop "" all_stages w_two) as H.
  assert (NoDup (dict_keys (clients w_two))) as Hnd.
  { apply (bool_decide_unpack _). vm_compute. exact I. }
  specialize (H Hnd).
  change (_started w_two) with true in H. cbv iota in H.
  destruct H as (w' & tail & _ & _ & Hs & Hc & Hsel & H).
  change (all_fired all_stages w_two) with true in H.
  change (_server_socket w_two) with Listening in H. cbv iota in H.
  destruct H as (Hstop & _ & Hsrv). exists w'.
  split_and!; [done|done|done| | |done].
  - rewrite Hsel. reflexivity.
  - rewrite Hsel. reflexivity.
Defined.

(** Disconnecting everything, abnormally and with hooks: connection 7 is gone
    from the registry and from the selector. *)
Lemma C8_disconnect_witness :
  ∃ w', disconnect All false "gone" false w_two = Return tt w'
        ∧ dict_get 7 (clients w') = None ∧ _epoll w' !! 7 = None.
Proof.
  destruct (C8_disconnect All false "gone" false w_two) as (w' & evs & Hd & _ & H).
  - apply (bool_decide_unpack _). vm_compute. exact I.
  - intros c Hc. discriminate.
  - exists w'. split; [done|].
    destruct (H 7) as (_ & ? & ?); [|done].
    apply (bool_decide_unpack _). vm_compute. exact I.
Defined.

(** Connection 7 is in the registry and not armed: [register] arms it, and a
    loud [unregister] raises. *)
Lemma C9_register_witness :
  (∃ w', register 7 false w_two = Return tt w'
         ∧ _epoll w' = <[7 := (Bound_recv, [7])]> (_epoll w_two))
  ∧ ∃ w', unregister 7 false w_two
            = Raise (KeyError (KeyMsg "Client not registered")) w'
          ∧ _epoll w' = _epoll w_two.
Proof.
  pose proof (C9_register_unregister 7 false w_two client7) as H.
  change (_epoll w_two !! 7) with (@None (callback * list nat)) in H.
  apply H. vm_compute. reflexivity.
Defined.

(** Connection 9 was never taken in: even a silent [register] raises. *)
Lemma C10_register_unknown_witness :
  register 9 true w_two = Raise (KeyError (KeyConn 9)) w_two.
Proof.
  apply (C10_register_unknown_connection 9 true w_two). vm_compute. reflexivity.
Defined.


(** * More of the engine *)

(** ** start *)

Lemma start_eq b l w :
  _started w = false →
  start b l w =
    (server_bind b ;; server_listen l ;;
     for_each all_stages (fun s => emit (EvStageStart s)) ;;
     _call_on_function on_start)
      (set_started true (set_trace (trace w ++ [EvStartedFlag]) w)).
Proof. intros Hs. unfold start. rewrite Hs. reflexivity. Qed.

Lemma start_again b l w :
  _started w = true → start b l w = Raise (OSError "Server can only be started once") w.
Proof. intros Hs. unfold start. by rewrite Hs. Qed.

(** X1.  [start] on a server that was not started sets the started flag
    first and then binds the listening socket, puts it to listen, starts the
    three stages and calls [on_start], in this order.  When the bind or the
    listen fails, the error leaves [start]: no stage has been started and
    [on_start] has not been called, but the flag is set.  However the first
    [start] ended, every later one raises [OSError] and changes nothing. *)
Theorem X1_start_only_once (bind_answer listen_answer : option exn)
    (w : world) :
  _started w = false →
  _server_socket w = Unbound →
  ∃ w', world_of (start bind_answer listen_answer w) = w'
    ∧ _started w' = true
    ∧ (∀ b l, start b l w' = Raise (OSError "Server can only be started once") w')
    ∧ match bind_answer, listen_answer with
      | None, None =>
          start bind_answer listen_answer w = Return tt w'
          ∧ trace w' = trace w ++ [EvStartedFlag; EvServerBind true;
                                   EvServerListen true;
                                   EvStageStart S_recv; EvStageStart S_accept;
                                   EvStageStart S_handle_connects;
                                   hook_event w on_start]
          ∧ _server_socket w' = Listening
      | None, Some e =>
          start bind_answer listen_answer w = Raise e w'
          ∧ trace w' = trace w ++ [EvStartedFlag; EvServerBind true;
                                   EvServerListen false]
          ∧ _server_socket w' = Bound
      | Some e, _ =>
          start bind_answer listen_answer w = Raise e w'
          ∧ trace w' = trace w ++ [EvStartedFlag; EvServerBind false]
          ∧ _server_socket w' = Unbound
      end.
Proof.
  intros Hs Hsrv. rewrite (start_eq _ _ _ Hs).
  set (w1 := set_started true _).
  assert (_server_socket w1 = Unbound) as Hsrv1 by done.
  rewrite bind_eq. unfold server_bind. rewrite Hsrv1.
  destruct bind_answer as [e|].
  { eexists. split; [reflexivity|]. cbn [world_of]. split; [done|]. split.
    { intros b l. by apply start_again. }
    split_and!; [done| |done]. simpl. by rewrite <- app_assoc. }
  cbv beta iota. rewrite bind_eq. unfold server_listen.
  cbn [_server_socket set_server_socket set_trace].
  destruct listen_answer as [e|].
  { eexists. split; [reflexivity|]. cbn [world_of]. split; [done|]. split.
    { intros b l. by apply start_again. }
    split_and!; [done| |done]. simpl. by rewrite <- !app_assoc. }
  cbv beta iota. unfold all_stages, for_each, bind, emit, ret.
  rewrite _call_on_function_eq.
  eexists. split; [reflexivity|]. cbn [world_of]. split; [done|]. split.
  { intros b l. by apply start_again. }
  split_and!; [done| |done]. unfold hook_event. simpl. by rewrite <- !app_assoc.
Qed.

(** ** run_in_subthread *)

(** X2.  [run_in_subthread] with the name of an entry of the policy table
    sets that entry, the one of the receive dispatch included, and no other,
    and the next call of a hook of that name runs as the entry says; with
    ['all'] it sets every entry; with a function object or an unknown name it
    raises [ValueError] and leaves the table alone. *)
Theorem X2_run_in_subthread (function : policy_arg) (yes_no : bool) (w : world) :
  match function with
  | ByName k =>
      ∃ w', run_in_subthread function yes_no w = Return tt w'
            ∧ trace w' = trace w
            ∧ _run_in_subthread w' k = yes_no
            ∧ (∀ k', k' ≠ k → _run_in_subthread w' k' = _run_in_subthread w k')
            ∧ (∀ h, hook_name h = k →
                 _call_on_function h w'
                   = Return tt (set_trace
                                  (trace w' ++ [EvHook (if yes_no then Threaded
                                                        else Inline) h]) w'))
  | ByAll =>
      ∃ w', run_in_subthread function yes_no w = Return tt w'
            ∧ trace w' = trace w
            ∧ ∀ k, _run_in_subthread w' k = yes_no
  | ByFunction | ByOtherName =>
      run_in_subthread function yes_no w
        = Raise (ValueError "The function is not a valid option") w
  end.
Proof.
  destruct function as [|k| |]; simpl; try done.
  - eexists. split; [reflexivity|]. split; [done|]. split_and!.
    + simpl. by rewrite decide_True.
    + intros k' Hk'. simpl. by rewrite decide_False.
    + intros h <-. rewrite _call_on_function_eq. unfold hook_event. simpl.
      by rewrite decide_True.
  - eexists. split; [reflexivity|]. done.
Qed.

(** ** get_ip and the registry *)

Lemma dict_get_set_other {V} c k (v : V) d :
  k ≠ c → dict_get k (dict_set c v d) = dict_get k d.
Proof.
  intros Hne. induction d as [|[k' x] r IH]; simpl.
  - by rewrite decide_False.
  - destruct (decide (k' = c)) as [->|Hc]; simpl.
    + by rewrite !decide_False.
    + destruct (decide (k' = k)); [done|apply IH].
Qed.

(** X3.  Once a queue entry has been taken in, [get_ip] of its connection
    gives the address of the entry, also when the connection was in the
    registry before under another address; the records of all other
    connections are as they were. *)
Theorem X3_get_ip_after_admission (entry : conn * address) (w : world) :
  ∃ w', handle_connect entry w = Return tt w'
        ∧ get_ip entry.1 w' = Return entry.2 w'
        ∧ ∀ c, c ≠ entry.1 → dict_get c (clients w') = dict_get c (clients w).
Proof.
  rewrite handle_connect_eq. eexists. split; [reflexivity|]. split.
  - unfold get_ip, bind, clients_getitem. simpl. by rewrite dict_get_set_same.
  - intros c Hc. simpl. by apply dict_get_set_other.
Qed.

(** ** The admission stage *)

(** X4.  While the stop flag is down, [rounds] passes of the admission loop
    take in the first [rounds] entries of the queue, oldest first: [on_connect]
    is called for them in queue order, their records are put into the registry
    in that order, the rest of the queue stays queued, nothing is armed, and
    the stage is left waiting on the queue. *)
Theorem X4_admission_in_queue_order (rounds : nat) (w : world) :
  _stop_signal w = false →
  ∃ w', _handle_connects_loop rounds w = Blocked w'
        ∧ _accept_queue w' = drop rounds (_accept_queue w)
        ∧ hooks_of (trace w')
          = hooks_of (trace w) ++ (on_connect <$> (take rounds (_accept_queue w)).*1)
        ∧ clients w'
          = foldl (λ d entry, dict_set entry.1 (record_of entry) d) (clients w)
              (take rounds (_accept_queue w))
        ∧ _epoll w' = _epoll w.
Proof.
  revert w. induction rounds as [|rounds IH]; intros w Hs; simpl; rewrite Hs.
  - eexists. split; [reflexivity|]. rewrite drop_0. simpl.
    by rewrite app_nil_r.
  - destruct (_accept_queue w) as [|entry rest] eqn:Hq.
    + destruct (IH w Hs) as (w' & He & Hqueue & Hh & Hc & Hep).
      exists w'. rewrite Hq in *. rewrite drop_nil, take_nil in *. done.
    + rewrite bind_eq, handle_connect_eq.
      set (w1 := set_clients _ _).
      destruct (IH w1) as (w' & He & Hqueue & Hh & Hc & Hep); [done|].
      exists w'. split; [exact He|]. split; [exact Hqueue|].
      split; [|split; [exact Hc|exact Hep]].
      rewrite Hh. unfold w1. simpl. rewrite !hooks_of_app. simpl.
      unfold hook_event. simpl. by rewrite <- app_assoc.
Qed.

(** ** The acceptor *)

Lemma accept_eq script exits w :
  _accept script exits w =
    match _server_socket w with
    | Closed => Raise (ValueError "Invalid file descriptor: -1") w
    | Unbound | Bound | Listening =>
        try_finally (_accept_loop script)
          (stage_finally S_accept "Error in _accept" exits) w
    end.
Proof.
  unfold _accept. rewrite bind_eq. unfold server_epoll_register.
  by destruct (_server_socket w).
Qed.

Lemma accept_loop_queue script : ∀ w,
  _stop_signal w = false →
  Forall (λ r, is_accept_error r = false) script →
  _accept_loop script w
    = Blocked (set_accept_queue (_accept_queue w ++ accepted_of script) w).
Proof.
  intros w Hs Hok. revert w Hs.
  induction Hok as [|r script Hr Hok IH]; intros w Hs; simpl; rewrite Hs.
  - unfold accepted_of. simpl. rewrite app_nil_r. by destruct w.
  - destruct r as [c a| |e]; [| |done].
    + rewrite IH by done. unfold accepted_of. simpl.
      rewrite <- app_assoc. by destruct w.
    + by rewrite IH.
Qed.

(** X5.  While the stop flag is down and no accept fails, the acceptor puts
    every accepted connection at the end of the queue, in the order of
    acceptance, skips the would-block outcomes, touches nothing else, and is
    left waiting for the next readiness report.  Only when the listening
    socket is closed does the stage not get that far: its selector refuses
    the socket, [ValueError] is raised before the loop, and nothing has
    changed. *)
Theorem X5_acceptor_queues_in_order (script : list accept_result)
    (exits : list stage) (w : world) :
  _stop_signal w = false →
  Forall (λ r, is_accept_error r = false) script →
  _accept script exits w
    = match _server_socket w with
      | Closed => Raise (ValueError "Invalid file descriptor: -1") w
      | Unbound | Bound | Listening =>
          Blocked (set_accept_queue (_accept_queue w ++ accepted_of script) w)
      end.
Proof.
  intros Hs Hok. rewrite accept_eq. unfold try_finally.
  rewrite accept_loop_queue by done. by destruct (_server_socket w).
Qed.

(** ** The stop flag ends the stages *)

(** X7.  A stage that finds the stop flag up leaves its loop at once: it sets
    its completion event and changes nothing else of the server; it asks the
    shared selector nothing, accepts nothing, takes nothing from the queue
    and does not call [stop].  The acceptor gets that far only if its own
    selector takes the listening socket: when the socket is closed, as it is
    after a completed [stop], the stage raises [ValueError] before its [try]
    and does not set its event. *)
Theorem X7_stop_flag_ends_stages (g : exn → nat → exn + string)
    (polls : list (list conn)) (script : list accept_result) (rounds : nat)
    (exits : list stage) (w : world) :
  _stop_signal w = true →
  _recv g polls exits w = Return tt (world_of (event_set S_recv w))
  ∧ _accept script exits w
    = match _server_socket w with
      | Closed => Raise (ValueError "Invalid file descriptor: -1") w
      | Unbound | Bound | Listening => Return tt (world_of (event_set S_accept w))
      end
  ∧ _handle_connects rounds exits w
    = Return tt (world_of (event_set S_handle_connects w)).
Proof.
  intros Hs.
  assert (_recv_loop g polls w = Return tt w) as Hr
    by (destruct polls; simpl; by rewrite Hs).
  assert (_accept_loop script w = Return tt w) as Ha
    by (destruct script; simpl; by rewrite Hs).
  assert (_handle_connects_loop rounds w = Return tt w) as Hh
    by (destruct rounds; simpl; by rewrite Hs).
  rewrite accept_eq.
  unfold _recv, _handle_connects, try_finally, stage_finally.
  rewrite Hr, Ha, Hh, !bind_eq. unfold event_set. simpl. rewrite Hs.
  split_and!; [done| |done]. by destruct (_server_socket w).
Qed.

(** ** register and unregister undo each other *)

(** X8.  For a connection of the registry that is not armed, [register]
    followed by [unregister] (silent or not) both return and leave the
    selector exactly as it was; the registry is not touched. *)
Theorem X8_register_then_unregister (c : conn) (s1 s2 : bool) (w : world)
    (client : _ClientInfo) :
  dict_get c (clients w) = Some client →
  _epoll w !! c = None →
  ∃ w1 w2, register c s1 w = Return tt w1
           ∧ unregister c s2 w1 = Return tt w2
           ∧ _epoll w2 = _epoll w
           ∧ clients w2 = clients w
           ∧ trace w2 = trace w ++ [EvSelRegister c true; EvSelUnregister c true].
Proof.
  intros Hreg Hfree. rewrite (register_in_registry _ _ _ _ Hreg), Hfree.
  eexists _, _. split; [reflexivity|]. rewrite unregister_eq. simpl.
  rewrite lookup_insert_eq. split; [reflexivity|]. simpl.
  split_and!; [by apply delete_insert_id|done|by rewrite <- app_assoc].
Qed.

(** ** A fault of the acceptor *)





(** ** After a disconnect *)

Lemma dict_get_del_other {V} c k (d : list (conn * V)) :
  k ≠ c → dict_get k (dict_del c d) = dict_get k d.
Proof.
  intros Hne. induction d as [|[k' x] r IH]; simpl; [done|].
  destruct (decide (k' = c)) as [->|Hc]; simpl.
  - by rewrite decide_False.
  - destruct (decide (k' = k)); [done|apply IH].
Qed.

Lemma disconnect_present_eq c normal msg silent w client :
  dict_get c (clients w) = Some client →
  disconnect (One c) normal msg silent w =
    Return tt
      (set_clients (dict_del c (clients w))
         (set_trace (trace w ++ disconnect_events normal msg silent w c
                     ++ [EvClientsDel c])
            (set_epoll (delete c (_epoll w)) w))).
Proof.
  intros Hc. unfold disconnect, bind. cbv beta iota zeta.
  rewrite for_each_disconnect by apply NoDup_singleton.
  unfold clients_delitem. cbn [clients set_epoll set_trace fold_left flat_map].
  rewrite Hc, app_nil_r.
  generalize (disconnect_events normal msg silent w c). intros evs.
  destruct w; simpl. unfold set_clients, set_trace, set_epoll; simpl.
  by rewrite <- app_assoc.
Qed.

Lemma disconnect_absent_eq c normal msg silent w :
  dict_get c (clients w) = None →
  disconnect (One c) normal msg silent w =
    Raise (KeyError (KeyConn c))
      (set_epoll (delete c (_epoll w))
         (set_trace (trace w ++ disconnect_events normal msg silent w c) w)).
Proof.
  intros Hc. unfold disconnect, bind. cbv beta iota zeta.
  rewrite for_each_disconnect by apply NoDup_singleton.
  unfold clients_delitem. cbn [clients set_epoll set_trace fold_left flat_map].
  by rewrite Hc, app_nil_r.
Qed.

(** X9.  After [disconnect] of a connection of the registry, the connection
    is unknown to the registry: [register] (silent or not), [send_raw] and
    [get_ip] raise the [KeyError] of the registry lookup, which they make
    before they touch the socket or the selector; every other connection has
    kept its record and its place in the selector. *)
Theorem X9_after_disconnect (c : conn) (normal : bool) (msg : string)
    (silent : bool) (w : world) :
  NoDup (dict_keys (clients w)) →
  is_Some (dict_get c (clients w)) →
  ∃ w', disconnect (One c) normal msg silent w = Return tt w'
    ∧ (∀ s, register c s w' = Raise (KeyError (KeyConn c)) w')
    ∧ (∀ data block, send_raw c data block w' = Raise (KeyError (KeyConn c)) w')
    ∧ get_ip c w' = Raise (KeyError (KeyConn c)) w'
    ∧ ∀ k, k ≠ c → dict_get k (clients w') = dict_get k (clients w)
                   ∧ _epoll w' !! k = _epoll w !! k.
Proof.
  intros Hnd [client Hc]. rewrite (disconnect_present_eq _ _ _ _ _ _ Hc).
  eexists. split; [reflexivity|].
  set (w' := set_clients _ _).
  assert (dict_get c (clients w') = None) as Hgone by (by apply dict_get_del_same).
  split_and!.
  - intros s. unfold register, bind, clients_getitem. by rewrite Hgone.
  - intros data block. unfold send_raw. rewrite bind_eq.
    unfold clients_getitem. by rewrite Hgone.
  - unfold get_ip, bind, clients_getitem. by rewrite Hgone.
  - intros k Hk. simpl. split; [by apply dict_get_del_other|].
    by apply lookup_delete_ne.
Qed.

(** ** Edge cases of the raw send *)

(** X11.  [send_raw] with no bytes to send makes no send call at all and
    returns: with [block] it takes the lock and gives it back, without it
    the world is left exactly as it was. *)
Theorem X11_send_nothing (c : conn) (block : bool) (w : world)
    (client : _ClientInfo) :
  dict_get c (clients w) = Some client →
  (block = true → send_lock client ∉ locked w) →
  ∃ w', send_raw c [] block w = Return tt w'
    ∧ trace w' = trace w
                 ++ (if block then [EvLockAcquire (send_lock client);
                                    EvLockRelease (send_lock client)]
                     else [])
    ∧ locked w' = locked w
    ∧ socks w' = socks w.
Proof.
  intros Hc Hfree. unfold send_raw. rewrite bind_eq. unfold clients_getitem.
  rewrite Hc, bind_eq. destruct block; cbn [when].
  - specialize (Hfree eq_refl). unfold lock_acquire.
    rewrite bool_decide_eq_false_2 by done.
    unfold try_finally. cbn [length send_loop Nat.ltb Nat.leb].
    unfold ret, lock_release.
    rewrite bool_decide_eq_true_2 by (simpl; left).
    eexists. split; [reflexivity|]. simpl.
    split_and!; [by rewrite <- app_assoc|by apply filter_ne_cons_fresh|done].
  - unfold try_finally. cbn [length send_loop Nat.ltb Nat.leb]. unfold ret.
    eexists. split; [reflexivity|]. by rewrite app_nil_r.
Qed.

(** ** What the receive dispatch leaves alone *)

(** X12.  Whatever the read gives, [recv] makes that one read and calls at
    most one hook (inline or on a thread of its own, as the policy table
    says), and nothing else: it takes nothing out of the registry or the
    selector, starts no dispatch thread, holds no lock and neither shuts down
    nor closes the socket.  After a clean or abnormal disconnect the
    connection is therefore still in the registry. *)
Theorem X12_recv_leaves_registry_alone (g : exn → nat → exn + string)
    (c : conn) (size : nat) (w : world) :
  clients (world_of (recv g c size w)) = clients w
  ∧ _epoll (world_of (recv g c size w)) = _epoll w
  ∧ threads (world_of (recv g c size w)) = threads w
  ∧ locked (world_of (recv g c size w)) = locked w
  ∧ ∃ hooks, trace (world_of (recv g c size w))
             = trace w ++ EvSockRecv c size :: hooks
             ∧ length hooks ≤ 1
             ∧ Forall (λ e, ∃ m h, e = EvHook m h) hooks.
Proof.
  unfold recv, recv_raw, conn_recv.
  destruct size as [|n].
  { simpl. unfold bind. rewrite _call_on_function_eq. simpl.
    split_and!; try done. eexists (cons _ nil). rewrite <- app_assoc.
    split_and!; [done|simpl; lia|]. repeat constructor. by eexists _, _. }
  set (size := S n).
  destruct (rx (sock_of c w)) as [|[bs|e] r]; simpl.
  - split_and!; try done. exists []. split_and!; [done|simpl; lia|constructor].
  - destruct (take size bs) eqn:Ht; simpl; unfold bind;
      rewrite ?_call_on_function_eq; simpl.
    + split_and!; try done. eexists (cons _ nil). rewrite <- app_assoc.
      split_and!; [done|simpl; lia|]. repeat constructor. by eexists _, _.
    + split_and!; try done. eexists (cons _ nil). rewrite <- app_assoc.
      split_and!; [done|simpl; lia|]. repeat constructor. by eexists _, _.
  - destruct ((err_no e =? EAGAIN)%Z || (err_no e =? EWOULDBLOCK)%Z); simpl.
    + split_and!; try done. exists []. split_and!; [done|simpl; lia|constructor].
    + destruct (g _ 0); simpl; unfold bind; rewrite ?_call_on_function_eq; simpl.
      * split_and!; try done. exists []. split_and!; [done|simpl; lia|constructor].
      * split_and!; try done. eexists (cons _ nil). rewrite <- app_assoc.
        split_and!; [done|simpl; lia|]. repeat constructor. by eexists _, _.
Qed.

(** ** The registry along a run *)

Lemma dict_get_Some_keys {V} k (d : list (conn * V)) :
  is_Some (dict_get k d) ↔ k ∈ dict_keys d.
Proof.
  unfold dict_keys. induction d as [|[k' x] r IH]; simpl.
  - split; [by intros [? ?]|by intros ?%elem_of_nil].
  - destruct (decide (k' = k)) as [->|Hne].
    + split; [intros _; left|by eexists].
    + rewrite IH. split; [by right|].
      intros [?|?]%elem_of_cons; [congruence|done].
Qed.

Lemma dict_keys_set {V} c (v : V) (d : list (conn * V)) :
  dict_keys (dict_set c v d)
    = if bool_decide (c ∈ dict_keys d) then dict_keys d else dict_keys d ++ [c].
Proof.
  unfold dict_keys. induction d as [|[k x] r IH]; [done|].
  cbn [dict_set]. destruct (decide (k = c)) as [->|Hne]; rewrite !fmap_cons;
    cbn [fst].
  - by rewrite bool_decide_eq_true_2 by left.
  - rewrite IH. case_bool_decide as H1; case_bool_decide as H2; try done.
    + exfalso. apply H2. by right.
    + exfalso. apply H1. apply elem_of_cons in H2 as [?|?]; done.
Qed.

Lemma dict_keys_del_sublist {V} c (d : list (conn * V)) :
  dict_keys (dict_del c d) `sublist_of` dict_keys d.
Proof.
  unfold dict_keys. induction d as [|[k x] r IH]; simpl; [done|].
  destruct (decide (k = c)); simpl.
  - by apply sublist_cons.
  - by apply sublist_skip.
Qed.

Lemma registry_sound_same w w' :
  clients w' = clients w → _epoll w' = _epoll w →
  preserves registry_sound w w'.
Proof. intros Hc He [? ?]. unfold registry_sound. by rewrite Hc, He. Qed.

Lemma registry_sound_quiet P w w' :
  quiet_step P w w' → preserves registry_sound w w'.
Proof. intros (Hc & He & _). by apply registry_sound_same. Qed.

Lemma registry_sound_unregister c :
  always (preserves registry_sound) (epoll_unregister c).
Proof.
  intros w [Hnd Harmed]. unfold epoll_unregister.
  destruct (_epoll w !! c) eqn:E; simpl; [|done].
  split; simpl; [done|]. intros k [d Hk].
  apply lookup_delete_Some in Hk as [_ Hk]. apply Harmed. by eexists.
Qed.

Lemma registry_sound_register c silent :
  always (preserves registry_sound) (register c silent).
Proof.
  intros w. destruct (dict_get c (clients w)) as [client|] eqn:Hc.
  2: { unfold register, bind, clients_getitem. rewrite Hc. simpl. reflexivity. }
  rewrite (register_in_registry _ _ _ _ Hc).
  destruct (_epoll w !! c) eqn:He.
  - destruct silent; simpl; by apply registry_sound_same.
  - simpl. intros [Hnd Harmed]. split; simpl; [done|]. intros k [d Hk].
    apply lookup_insert_Some in Hk as [[<- _]|[_ Hk]]; [by eexists|].
    apply Harmed. by eexists.
Qed.

Lemma registry_sound_handle_connect entry :
  always (preserves registry_sound) (handle_connect entry).
Proof.
  intros w [Hnd Harmed]. rewrite handle_connect_eq. split; simpl.
  - rewrite dict_keys_set. case_bool_decide as Hin; [done|].
    apply NoDup_app. split_and!; [done| |apply NoDup_singleton].
    intros k Hk ->%list_elem_of_singleton. done.
  - intros k Hk. apply dict_get_Some_keys. rewrite dict_keys_set.
    apply Harmed, dict_get_Some_keys in Hk.
    case_bool_decide; [done|]. apply elem_of_app. by left.
Qed.

Lemma registry_sound_disconnect t normal msg silent :
  always (preserves registry_sound) (disconnect t normal msg silent).
Proof.
  intros w [Hnd Harmed]. destruct t as [|c].
  - rewrite disconnect_all_eq by done. split; simpl; [constructor|].
    intros k [d Hk]. rewrite fold_delete_lookup in Hk.
    case_bool_decide as Hin; [done|].
    exfalso. apply Hin, dict_get_Some_keys, Harmed. by eexists.
  - destruct (dict_get c (clients w)) as [client|] eqn:Hc.
    + rewrite (disconnect_present_eq _ _ _ _ _ _ Hc). split; simpl.
      * eapply sublist_NoDup; [exact Hnd|apply dict_keys_del_sublist].
      * intros k [d Hk]. apply lookup_delete_Some in Hk as [Hne Hk].
        rewrite dict_get_del_other by done. apply Harmed. by eexists.
    + rewrite (disconnect_absent_eq _ _ _ _ _ Hc). split; simpl; [done|].
      intros k [d Hk]. apply lookup_delete_Some in Hk as [_ Hk].
      apply Harmed. by eexists.
Qed.

Section KeepsVia.
Context (R : world → world → Prop) `{!Reflexive R} `{!Transitive R}.
Hypothesis R_quiet : ∀ w w', quiet_step plain w w' → R w w'.
Hypothesis R_disconnect : ∀ t normal msg silent,
  always R (disconnect t normal msg silent).

Lemma via_stop reason exits : always R (stop reason exits).
Proof.
  intros w. unfold stop. destruct (negb (_started w)); [simpl; reflexivity|].
  revert w. change (always R
    (emit EvStopSignal ;;
     (fun w1 => Return tt (set_stop_signal true w1)) ;;
     disconnect All true "" true ;;
     for_each exits event_set ;;
     for_each all_stages event_wait ;;
     server_shutdown ;; server_close ;;
     _call_on_function (on_stop reason))).
  apply always_bind; [apply _| |intros _].
  { intros w. apply R_quiet. by apply quiet_emit. }
  apply always_bind; [apply _|intros w; simpl; apply R_quiet; quiet|intros _].
  apply always_bind; [apply _|apply R_disconnect|intros _].
  apply always_bind; [apply _| |intros _].
  { apply always_for_each; [apply _..|]. intros s w.
    apply R_quiet, quiet_event_set. }
  apply always_bind; [apply _| |intros _].
  { apply always_for_each; [apply _..|]. intros s w.
    apply R_quiet, quiet_event_wait. }
  apply always_bind; [apply _| |intros _].
  { intros w. apply R_quiet. by apply quiet_server_shutdown. }
  apply always_bind; [apply _| |intros _].
  { intros w. apply R_quiet. by apply quiet_server_close. }
  intros w. apply R_quiet. by apply quiet_call_on_function.
Qed.

Lemma via_stage_finally s reason exits : always R (stage_finally s reason exits).
Proof.
  unfold stage_finally. apply always_bind; [apply _| |intros _].
  { intros w. apply R_quiet, quiet_event_set. }
  intros w. destruct (negb (_stop_signal w)); [apply via_stop|simpl; reflexivity].
Qed.
End KeepsVia.

Lemma registry_sound_stage_finally s reason exits :
  always (preserves registry_sound) (stage_finally s reason exits).
Proof.
  apply via_stage_finally; try apply _.
  - intros w w'. apply registry_sound_quiet.
  - apply registry_sound_disconnect.
Qed.

Lemma registry_sound_dispatch g key :
  always (preserves registry_sound) (dispatch g key).
Proof.
  unfold dispatch. apply always_bind; [apply _| |intros _].
  { apply keeps_unregister; try apply _. apply registry_sound_unregister. }
  intros w. destruct (_run_in_subthread w K_client_callback).
  - simpl. by apply registry_sound_same.
  - rewrite bind_eq. unfold emit.
    set (w2 := set_trace _ w).
    etrans;
      [|apply (registry_sound_quiet _ _ _
                 (quiet_call_callback g (data key).1 (data key).2 w2))].
    by apply registry_sound_same.
Qed.

Lemma registry_sound_recv_loop g polls :
  always (preserves registry_sound) (_recv_loop g polls).
Proof.
  induction polls as [|ready rest IH]; intros w; simpl;
    destruct (_stop_signal w); try reflexivity.
  rewrite bind_eq. unfold epoll_select. cbv beta iota. rewrite bind_eq.
  set (keys := omap _ ready).
  pose proof (always_for_each (preserves registry_sound) keys (dispatch g)
                (registry_sound_dispatch g) w) as Hd.
  destruct (for_each keys (dispatch g) w) as [[] w1|e w1|w1];
    simpl in *; [|done..].
  etrans; [exact Hd|apply IH].
Qed.

Lemma registry_sound_handle_connects_loop rounds :
  always (preserves registry_sound) (_handle_connects_loop rounds).
Proof.
  induction rounds as [|rounds IH]; intros w; simpl;
    destruct (_stop_signal w); try reflexivity.
  destruct (_accept_queue w) as [|entry rest]; [apply IH|].
  trans (set_accept_queue rest w).
  { by apply registry_sound_same. }
  exact (always_bind _ _ _ (registry_sound_handle_connect entry) (λ _, IH) _).
Qed.

Lemma registry_sound_thread_run g i :
  always (preserves registry_sound) (thread_run g i).
Proof.
  intros w. unfold thread_run. destruct (threads w !! i) as [th|]; [|done].
  simpl.
  etrans;
    [apply (registry_sound_quiet _ _ _
              (quiet_call_callback g (th_target th) (th_args th) w))|].
  by apply registry_sound_same.
Qed.

Lemma registry_sound_perform g a :
  always (preserves registry_sound) (perform g a).
Proof.
  destruct a; cbn [perform].
  - intros w. apply (registry_sound_quiet plain), quiet_start.
  - apply via_stop; try apply _.
    + intros w w'. apply registry_sound_quiet.
    + apply registry_sound_disconnect.
  - unfold _accept. apply always_bind; [apply _| |intros _].
    { intros w. apply (registry_sound_quiet plain), quiet_server_epoll_register. }
    apply always_try_finally; [apply _..| |].
    + intros w. apply (registry_sound_quiet plain), quiet_accept_loop.
    + apply registry_sound_stage_finally.
  - apply always_try_finally; [apply _..| |].
    + apply registry_sound_handle_connects_loop.
    + apply registry_sound_stage_finally.
  - apply always_try_finally; [apply _..| |].
    + apply registry_sound_recv_loop.
    + apply registry_sound_stage_finally.
  - apply registry_sound_thread_run.
  - apply registry_sound_register.
  - apply keeps_unregister; try apply _. apply registry_sound_unregister.
  - intros w. apply (registry_sound_quiet plain), quiet_send_raw.
  - apply registry_sound_disconnect.
  - intros w. apply (registry_sound_quiet plain), quiet_run_in_subthread.
Qed.

(** X13.  In every run of the server from its construction the registry has
    one record per connection, and every connection that is armed in the
    selector is in the registry: [disconnect] and [stop] never leave an armed
    connection behind, and [register] never arms an unknown one. *)
Theorem X13_armed_connections_are_registered (g : exn → nat → exn + string)
    (env : gmap nat sock) (acts : list action) :
  NoDup (dict_keys (clients (run g acts (init_world env))))
  ∧ ∀ k, is_Some (_epoll (run g acts (init_world env)) !! k) →
         is_Some (dict_get k (clients (run g acts (init_world env)))).
Proof.
  assert (registry_sound (init_world env)) as Hinit.
  { split; simpl; [constructor|]. intros k [d Hk]. by rewrite lookup_empty in Hk. }
  revert Hinit. generalize (init_world env).
  induction acts as [|a r IH]; intros w Hw; simpl; [done|].
  apply IH. by apply (registry_sound_perform g a w).
Qed.

(** ** One round of the dispatch loop *)

Lemma dispatch_threaded_eq g key w :
  _epoll w !! fileobj key = Some (data key) →
  _run_in_subthread w K_client_callback = true →
  dispatch g key w =
    Return tt
      (set_threads (threads w ++ [thread_of key])
         (set_epoll (delete (fileobj key) (_epoll w))
            (set_trace (trace w ++ dispatch_events key) w))).
Proof.
  intros He Hp. unfold dispatch. rewrite bind_eq, unregister_eq, He.
  cbn [_run_in_subthread set_epoll set_trace]. rewrite Hp.
  unfold bind, emit, thread_start, thread_of, dispatch_events.
  destruct w; simpl. unfold set_threads, set_epoll, set_trace; simpl.
  by rewrite <- app_assoc.
Qed.

Lemma for_each_dispatch_threaded g keys : ∀ w,
  _run_in_subthread w K_client_callback = true →
  NoDup (fileobj <$> keys) →
  (∀ key, key ∈ keys → _epoll w !! fileobj key = Some (data key)) →
  for_each keys (dispatch g) w =
    Return tt
      (set_threads (threads w ++ (thread_of <$> keys))
         (set_epoll (fold_left (λ m c, delete c m) (fileobj <$> keys) (_epoll w))
            (set_trace (trace w ++ flat_map dispatch_events keys) w))).
Proof.
  induction keys as [|key r IH]; intros w Hp Hnd Harmed.
  - simpl. unfold ret. destruct w; simpl. by rewrite !app_nil_r.
  - rewrite fmap_cons in Hnd. apply NoDup_cons in Hnd as [Hkey Hr].
    cbn [for_each]. rewrite bind_eq, dispatch_threaded_eq;
      [|apply Harmed; left|done].
    rewrite IH; [|done|done|].
    + rewrite !fmap_cons. cbn [flat_map fold_left].
      generalize (dispatch_events key) (flat_map dispatch_events r)
        (thread_of key) (thread_of <$> r).
      intros e1 e2 t1 t2. destruct w; simpl.
      unfold set_threads, set_epoll, set_trace; simpl.
      by rewrite <- !app_assoc.
    + intros k Hk. simpl. rewrite lookup_delete_ne.
      * apply Harmed. by right.
      * intros Heq. apply Hkey. rewrite Heq. by apply list_elem_of_fmap_2.
Qed.

Lemma select_all_armed ready w :
  (∀ c, c ∈ ready → is_Some (_epoll w !! c)) →
  ∃ keys, epoll_select ready w = Return keys w
          ∧ fileobj <$> keys = ready
          ∧ ∀ key, key ∈ keys → _epoll w !! fileobj key = Some (data key).
Proof.
  intros Harmed. unfold epoll_select. eexists. split; [reflexivity|].
  induction ready as [|c r IH]; [split; [done|by intros ? ?%elem_of_nil]|].
  destruct (Harmed c) as [d Hd]; [left|].
  destruct IH as [Hf Hk]; [intros k Hk; apply Harmed; by right|].
  cbn [omap list_omap]. rewrite Hd. cbn [fmap option_fmap option_map].
  split.
  - rewrite fmap_cons. simpl. f_equal. exact Hf.
  - intros key [->|Hin]%elem_of_cons; [done|by apply Hk].
Qed.

(** X14.  One round of the dispatch loop with the receive dispatch on
    threads, for a report of distinct armed connections: every reported
    connection is taken out of the selector and gets exactly one thread,
    started with the callback and arguments it was armed with, in the order
    of the report; for each the unregister comes right before its dispatch;
    no hook runs in the loop itself; connections that were not reported stay
    as they were; and the loop goes back to waiting in [select]. *)
Theorem X14_one_round_of_dispatch (g : exn → nat → exn + string)
    (ready : list conn) (w : world) :
  _stop_signal w = false →
  _run_in_subthread w K_client_callback = true →
  NoDup ready →
  (∀ c, c ∈ ready → is_Some (_epoll w !! c)) →
  ∃ keys w',
    epoll_select ready w = Return keys w
    ∧ fileobj <$> keys = ready
    ∧ _recv_loop g [ready] w = Blocked w'
    ∧ trace w' = trace w ++ flat_map dispatch_events keys
    ∧ threads w' = threads w ++ (thread_of <$> keys)
    ∧ (∀ c, _epoll w' !! c = if bool_decide (c ∈ ready) then None
                             else _epoll w !! c)
    ∧ clients w' = clients w.
Proof.
  intros Hs Hp Hnd Harmed.
  destruct (select_all_armed ready w Harmed) as (keys & Hsel & Hf & Hk).
  exists keys. eexists. split; [exact Hsel|]. split; [exact Hf|].
  cbn [_recv_loop]. rewrite Hs, bind_eq, Hsel, bind_eq.
  rewrite for_each_dispatch_threaded; [|done|by rewrite Hf|done].
  cbn [_recv_loop _stop_signal set_threads set_epoll set_trace]. rewrite Hs.
  split; [reflexivity|]. simpl. split_and!; try done.
  intros c. rewrite Hf. apply fold_delete_lookup.
Qed.

(** ** One dispatch per arming *)

Lemma sel_step_tame c st e : tame e = true → sel_step c st e = st.
Proof.
  intros H. destruct st as [b|]; [|done].
  destruct e; simpl in *; try done; repeat case_match; congruence.
Qed.

Lemma sel_view_tame c t evs :
  Forall (λ e, tame e = true) evs → sel_view c (t ++ evs) = sel_view c t.
Proof.
  intros Hev. unfold sel_view. rewrite foldl_app.
  generalize (foldl (sel_step c) (Some false) t).
  induction Hev as [|e evs He _ IH]; intros st; simpl; [done|].
  rewrite sel_step_tame by done. apply IH.
Qed.

Lemma tame_not_dispatch e : tame e = true → not_dispatch e = true.
Proof. by destruct e. Qed.

Lemma selector_logged_frame w w' evs :
  _epoll w' = _epoll w →
  trace w' = trace w ++ evs →
  Forall (λ e, tame e = true) evs →
  preserves selector_logged w w'.
Proof.
  intros He Htr Hev [Hview Hpre]. split.
  - intros c. by rewrite He, Htr, sel_view_tame.
  - rewrite Htr. apply dispatch_preceded_app; [done|].
    intros evs1 m c f a evs2 Heq.
    eapply no_dispatch_in in Heq; [done|].
    eapply Forall_impl; [exact Hev|]. apply tame_not_dispatch.
Qed.

Lemma selector_logged_quiet w w' :
  quiet_step tame w w' → preserves selector_logged w w'.
Proof.
  intros (_ & He & _ & evs & Htr & Hev). by eapply selector_logged_frame.
Qed.

(** The primitives only add tame events. *)

Lemma tame_conn_recv c size : always (quiet_step tame) (conn_recv c size).
Proof.
  intros w. unfold conn_recv. destruct size as [|n]; [simpl; quiet|].
  destruct (rx (sock_of c w)) as [|[bs|e] r]; simpl; quiet.
Qed.

Lemma tame_conn_send c buf : always (quiet_step tame) (conn_send c buf).
Proof.
  intros w. unfold conn_send.
  destruct (tx (sock_of c w)) as [|[k|e] r]; simpl; quiet.
Qed.

Lemma tame_conn_shutdown c : always (quiet_step tame) (conn_shutdown c).
Proof.
  intros w. unfold conn_shutdown.
  destruct (shutdown_error (sock_of c w)); simpl; quiet.
Qed.

Lemma tame_lock_acquire l : always (quiet_step tame) (lock_acquire l).
Proof. intros w. unfold lock_acquire. case_bool_decide; simpl; quiet. Qed.

Lemma tame_lock_release l : always (quiet_step tame) (lock_release l).
Proof. intros w. unfold lock_release. case_bool_decide; simpl; quiet. Qed.

Lemma tame_clients_getitem c : always (quiet_step tame) (clients_getitem c).
Proof.
  intros w. unfold clients_getitem. destruct (dict_get c (clients w)); simpl; quiet.
Qed.

Lemma tame_event_set s : always (quiet_step tame) (event_set s).
Proof. intros w. unfold event_set. simpl. quiet. Qed.

Lemma tame_event_wait s : always (quiet_step tame) (event_wait s).
Proof.
  intros w. unfold event_wait, emit. destruct (_stop_events w s); simpl; quiet.
Qed.

Lemma tame_call_on_function h : always (quiet_step tame) (_call_on_function h).
Proof. by apply quiet_call_on_function. Qed.

Lemma tame_recv_raw c size : always (quiet_step tame) (recv_raw c size).
Proof.
  intros w. pose proof (tame_conn_recv c size w) as H. unfold recv_raw.
  destruct (conn_recv c size w) as [[|b bs] w1|[] w1|w1]; simpl in *; try done.
  by destruct (_ || _).
Qed.

Lemma tame_recv g c size : always (quiet_step tame) (recv g c size).
Proof.
  intros w. pose proof (tame_recv_raw c size w) as Hq. unfold recv.
  destruct (recv_raw c size w) as [d w1|err w1|w1]; simpl in *; [| |done].
  - etrans; [exact Hq|]. rewrite bind_eq, _call_on_function_eq. simpl. quiet.
  - destruct (is_ClientDisconnect err).
    { etrans; [exact Hq|]. rewrite bind_eq, _call_on_function_eq. simpl. quiet. }
    destruct (is_ClientAbnormalDisconnect err); [|done].
    destruct (g err 0); [done|].
    etrans; [exact Hq|]. rewrite bind_eq, _call_on_function_eq. simpl. quiet.
Qed.

Lemma tame_call_callback g f args : always (quiet_step tame) (call_callback g f args).
Proof.
  intros w. destruct f, args as [|c [|]]; simpl; try reflexivity.
  rewrite bind_eq. pose proof (tame_recv g c 4096 w) as H.
  by destruct (recv g c 4096 w).
Qed.

Lemma tame_send_loop c data to_send : ∀ fuel total_sent,
  always (quiet_step tame) (send_loop fuel c data to_send total_sent).
Proof.
  induction fuel as [|fuel IH]; intros total_sent; simpl.
  - destruct (_ <? _); apply always_ret; apply _.
  - destruct (_ <? _); [|apply always_ret; apply _].
    apply always_bind; [apply _|apply tame_conn_send|]. intros sent.
    destruct (sent =? 0); [apply always_raise; apply _|apply IH].
Qed.

Lemma tame_send_raw c data block : always (quiet_step tame) (send_raw c data block).
Proof.
  unfold send_raw. apply always_bind; [apply _|apply tame_clients_getitem|].
  intros client. apply always_bind; [apply _| |].
  - apply always_when; [apply _|apply tame_lock_acquire].
  - intros _. apply always_try_finally; [apply _..|apply tame_send_loop|].
    apply always_when; [apply _|apply tame_lock_release].
Qed.

Lemma tame_start b l : always (quiet_step tame) (start b l).
Proof.
  intros w. unfold start. destruct (_started w); [simpl; quiet|].
  revert w. change (always (quiet_step tame)
    (emit EvStartedFlag ;;
     (fun w1 => Return tt (set_started true w1)) ;;
     server_bind b ;; server_listen l ;;
     for_each all_stages (fun s => emit (EvStageStart s)) ;;
     _call_on_function on_start)).
  apply always_bind; [apply _|by apply quiet_emit|intros _].
  apply always_bind; [apply _|intros w; simpl; quiet|intros _].
  apply always_bind; [apply _|by apply quiet_server_bind|intros _].
  apply always_bind; [apply _|by apply quiet_server_listen|intros _].
  apply always_bind; [apply _| |intros _].
  - apply always_for_each; [apply _..|]. intros s. by apply quiet_emit.
  - apply tame_call_on_function.
Qed.

Lemma tame_run_in_subthread f b : always (quiet_step tame) (run_in_subthread f b).
Proof. intros w. unfold run_in_subthread. destruct f; simpl; quiet. Qed.

Lemma tame_accept_loop script : always (quiet_step tame) (_accept_loop script).
Proof.
  induction script as [|[c a| |e] r IH]; intros w; simpl;
    destruct (_stop_signal w); simpl; try quiet.
  - etrans; [|apply IH]. quiet.
  - apply IH.
Qed.

Section KeepsTame.
Context (R : world → world → Prop) `{!Reflexive R} `{!Transitive R}.
Hypothesis R_tame : ∀ w w', quiet_step tame w w' → R w w'.
Hypothesis R_unregister : ∀ c, always R (epoll_unregister c).
Hypothesis R_delitem : ∀ c, always R (clients_delitem c).
Hypothesis R_clear : always R clients_clear.

Lemma tamely {A} (m : M A) : always (quiet_step tame) m → always R m.
Proof. intros H w. apply R_tame, H. Qed.

Lemma tamely_unregister c silent : always R (unregister c silent).
Proof.
  unfold unregister. apply always_try_except; [apply _..|apply R_unregister|].
  intros _. destruct silent; [apply always_ret|apply always_raise]; apply _.
Qed.

Lemma tamely_disconnect_one normal msg silent c :
  always R (disconnect_one normal msg silent c).
Proof.
  unfold disconnect_one.
  apply always_bind; [apply _|apply tamely_unregister|intros _].
  apply always_bind; [apply _| |intros _].
  { apply always_try_except; [apply _..| |].
    - apply tamely, tame_conn_shutdown.
    - intros _. apply always_ret; apply _. }
  apply always_bind; [apply _| |intros _].
  { apply tamely. by apply quiet_emit. }
  destruct (normal && negb silent); [apply tamely, tame_call_on_function|].
  destruct (negb silent); [apply tamely, tame_call_on_function|].
  apply always_ret; apply _.
Qed.

Lemma tamely_disconnect t normal msg silent :
  always R (disconnect t normal msg silent).
Proof.
  intros w. unfold disconnect.
  apply always_bind; [apply _| |intros _].
  - apply always_for_each; [apply _..|]. apply tamely_disconnect_one.
  - destruct t; [apply R_clear|apply R_delitem].
Qed.
End KeepsTame.

Lemma sel_view_snoc c t e : sel_view c (t ++ [e]) = sel_step c (sel_view c t) e.
Proof. unfold sel_view. by rewrite foldl_app. Qed.

Lemma selector_logged_unregister c :
  always (preserves selector_logged) (epoll_unregister c).
Proof.
  intros w. unfold epoll_unregister.
  destruct (_epoll w !! c) as [d|] eqn:E; simpl.
  - intros [Hview Hpre]. split; simpl.
    + intros k. rewrite sel_view_snoc, Hview. simpl.
      destruct (decide (c = k)) as [->|Hne].
      * rewrite E, lookup_delete_eq.
        rewrite bool_decide_eq_true_2 by (by eexists).
        by rewrite bool_decide_eq_false_2 by (by intros [? ?]).
      * by rewrite lookup_delete_ne.
    + apply dispatch_preceded_app; [done|]. intros [|? [|]] ??????; done.
  - apply (selector_logged_frame _ _ [EvSelUnregister c false]); simpl; try done.
    by repeat constructor.
Qed.

Lemma selector_logged_delitem c :
  always (preserves selector_logged) (clients_delitem c).
Proof.
  intros w. unfold clients_delitem. destruct (dict_get c (clients w)); simpl; [|done].
  apply (selector_logged_frame _ _ [EvClientsDel c]); simpl; try done.
  by repeat constructor.
Qed.

Lemma selector_logged_clear : always (preserves selector_logged) clients_clear.
Proof.
  intros w. unfold clients_clear. simpl.
  apply (selector_logged_frame _ _ [EvClientsClear]); simpl; try done.
  by repeat constructor.
Qed.

Lemma selector_logged_register c silent :
  always (preserves selector_logged) (register c silent).
Proof.
  intros w. destruct (dict_get c (clients w)) as [client|] eqn:Hc.
  2: { unfold register, bind, clients_getitem. rewrite Hc. simpl. reflexivity. }
  rewrite (register_in_registry _ _ _ _ Hc).
  destruct (_epoll w !! c) as [d|] eqn:E.
  - apply (selector_logged_frame _ _ [EvSelRegister c false]);
      destruct silent; simpl; try done; by repeat constructor.
  - simpl. intros [Hview Hpre]. split; simpl.
    + intros k. rewrite sel_view_snoc, Hview. simpl.
      destruct (decide (c = k)) as [->|Hne].
      * rewrite E, lookup_insert_eq.
        rewrite bool_decide_eq_false_2 by (by intros [? ?]).
        by rewrite bool_decide_eq_true_2 by (by eexists).
      * by rewrite lookup_insert_ne.
    + apply dispatch_preceded_app; [done|]. intros [|? [|]] ??????; done.
Qed.

Lemma selector_logged_handle_connect entry :
  always (preserves selector_logged) (handle_connect entry).
Proof.
  intros w. rewrite handle_connect_eq. simpl.
  eapply selector_logged_frame; simpl; try done. unfold hook_event.
  by repeat constructor.
Qed.

Lemma selector_logged_dispatch g key :
  always (preserves selector_logged) (dispatch g key).
Proof.
  intros w. unfold dispatch. rewrite bind_eq.
  pose proof (selector_logged_unregister (fileobj key) w) as Hu.
  rewrite unregister_eq. unfold epoll_unregister in Hu.
  destruct (_epoll w !! fileobj key) as [d|] eqn:E; simpl in Hu; [|exact Hu].
  set (w1 := set_epoll _ _) in *.
  etrans; [exact Hu|]. clear Hu. intros [Hview Hpre].
  assert (selector_logged
            (set_trace (trace w1 ++ [EvDispatch
                                       (if _run_in_subthread w1 K_client_callback
                                        then Threaded else Inline)
                                       (fileobj key) (data key).1 (data key).2]) w1))
    as Hd.
  { split; simpl.
    - intros k. pose proof (Hview k) as Hk. simpl in Hk.
      rewrite sel_view_snoc, Hk. done.
    - simpl in Hpre. apply dispatch_preceded_app; [done|].
      intros [|? [|]] ????? Heq; simplify_eq/=. rewrite app_nil_r. by eexists. }
  destruct (_run_in_subthread w1 K_client_callback).
  - revert Hd. by apply (selector_logged_frame _ _ []); simpl; rewrite ?app_nil_r.
  - rewrite bind_eq. unfold emit. revert Hd.
    apply selector_logged_quiet, tame_call_callback.
Qed.

Lemma selector_logged_recv_loop g polls :
  always (preserves selector_logged) (_recv_loop g polls).
Proof.
  induction polls as [|ready rest IH]; intros w; simpl;
    destruct (_stop_signal w); try reflexivity.
  rewrite bind_eq. unfold epoll_select. cbv beta iota. rewrite bind_eq.
  set (keys := omap _ ready).
  pose proof (always_for_each (preserves selector_logged) keys (dispatch g)
                (selector_logged_dispatch g) w) as Hd.
  destruct (for_each keys (dispatch g) w) as [[] w1|e w1|w1];
    simpl in *; [|done..].
  etrans; [exact Hd|apply IH].
Qed.

Lemma selector_logged_handle_connects_loop rounds :
  always (preserves selector_logged) (_handle_connects_loop rounds).
Proof.
  induction rounds as [|rounds IH]; intros w; simpl;
    destruct (_stop_signal w); try reflexivity.
  destruct (_accept_queue w) as [|entry rest]; [apply IH|].
  trans (set_accept_queue rest w).
  { by apply (selector_logged_frame _ _ []); simpl; rewrite ?app_nil_r. }
  exact (always_bind _ _ _ (selector_logged_handle_connect entry) (λ _, IH) _).
Qed.

Lemma selector_logged_disconnect t normal msg silent :
  always (preserves selector_logged) (disconnect t normal msg silent).
Proof.
  apply tamely_disconnect; try apply _.
  - apply selector_logged_quiet.
  - apply selector_logged_unregister.
  - apply selector_logged_delitem.
  - apply selector_logged_clear.
Qed.

Lemma selector_logged_stop reason exits :
  always (preserves selector_logged) (stop reason exits).
Proof.
  intros w. unfold stop. destruct (negb (_started w)); [simpl; reflexivity|].
  revert w. change (always (preserves selector_logged)
    (emit EvStopSignal ;;
     (fun w1 => Return tt (set_stop_signal true w1)) ;;
     disconnect All true "" true ;;
     for_each exits event_set ;;
     for_each all_stages event_wait ;;
     server_shutdown ;; server_close ;;
     _call_on_function (on_stop reason))).
  apply always_bind; [apply _| |intros _].
  { intros w. apply selector_logged_quiet. by apply quiet_emit. }
  apply always_bind; [apply _| |intros _].
  { intros w. simpl. apply selector_logged_quiet. quiet. }
  apply always_bind; [apply _|apply selector_logged_disconnect|intros _].
  apply always_bind; [apply _| |intros _].
  { apply always_for_each; [apply _..|]. intros s w.
    apply selector_logged_quiet, tame_event_set. }
  apply always_bind; [apply _| |intros _].
  { apply always_for_each; [apply _..|]. intros s w.
    apply selector_logged_quiet, tame_event_wait. }
  apply always_bind; [apply _| |intros _].
  { intros w. apply selector_logged_quiet. by apply quiet_server_shutdown. }
  apply always_bind; [apply _| |intros _].
  { intros w. apply selector_logged_quiet. by apply quiet_server_close. }
  intros w. apply selector_logged_quiet, tame_call_on_function.
Qed.

Lemma selector_logged_stage_finally s reason exits :
  always (preserves selector_logged) (stage_finally s reason exits).
Proof.
  unfold stage_finally. apply always_bind; [apply _| |intros _].
  { intros w. apply selector_logged_quiet, tame_event_set. }
  intros w. destruct (negb (_stop_signal w));
    [apply selector_logged_stop|simpl; reflexivity].
Qed.

Lemma selector_logged_thread_run g i :
  always (preserves selector_logged) (thread_run g i).
Proof.
  intros w. unfold thread_run. destruct (threads w !! i) as [th|]; [|done].
  simpl.
  etrans;
    [apply (selector_logged_quiet _ _
              (tame_call_callback g (th_target th) (th_args th) w))|].
  by apply (selector_logged_frame _ _ []); simpl; rewrite ?app_nil_r.
Qed.

Lemma selector_logged_perform g a :
  always (preserves selector_logged) (perform g a).
Proof.
  destruct a; cbn [perform].
  - intros w. apply selector_logged_quiet, tame_start.
  - apply selector_logged_stop.
  - unfold _accept. apply always_bind; [apply _| |intros _].
    { intros w. apply selector_logged_quiet, quiet_server_epoll_register. }
    apply always_try_finally; [apply _..| |].
    + intros w. apply selector_logged_quiet, tame_accept_loop.
    + apply selector_logged_stage_finally.
  - apply always_try_finally; [apply _..| |].
    + apply selector_logged_handle_connects_loop.
    + apply selector_logged_stage_finally.
  - apply always_try_finally; [apply _..| |].
    + apply selector_logged_recv_loop.
    + apply selector_logged_stage_finally.
  - apply selector_logged_thread_run.
  - apply selector_logged_register.
  - apply tamely_unregister; try apply _. apply selector_logged_unregister.
  - intros w. apply selector_logged_quiet, tame_send_raw.
  - apply selector_logged_disconnect.
  - intros w. apply selector_logged_quiet, tame_run_in_subthread.
Qed.

Lemma selector_logged_run g acts : ∀ w,
  selector_logged w → selector_logged (run g acts w).
Proof.
  induction acts as [|a r IH]; intros w Hw; simpl; [done|].
  apply IH. by apply (selector_logged_perform g a w).
Qed.

Lemma selector_logged_init env : selector_logged (init_world env).
Proof.
  split; simpl.
  - intros c. rewrite lookup_empty.
    by rewrite bool_decide_eq_false_2 by (by intros [? ?]).
  - intros [|? ?] ??????; done.
Qed.

Lemma sel_fold_None c l : foldl (sel_step c) None l = None.
Proof. induction l; [done|]. simpl. done. Qed.

Lemma sel_fold_unarmed c l : ∀ st,
  st = Some false ∨ st = None →
  EvSelRegister c true ∈ l
  ∨ foldl (sel_step c) st l = Some false
  ∨ foldl (sel_step c) st l = None.
Proof.
  induction l as [|e l IH]; intros st Hst; simpl; [by right|].
  destruct Hst as [->| ->].
  2: { right; right. apply sel_fold_None. }
  assert (e = EvSelRegister c true
          ∨ sel_step c (Some false) e = Some false
          ∨ sel_step c (Some false) e = None) as [->|Hstep].
  { destruct e as [| |c' [|]|c' [|]| | | | | | | | | | | | | | | | | | |]; simpl;
      try (by right; left).
    - destruct (decide (c' = c)) as [->|]; [by left|by right; left].
    - destruct (decide (c' = c)) as [->|]; [by right; right|by right; left]. }
  - left. left.
  - destruct (IH _ Hstep) as [Hin|Hres]; [left; by right|by right].
Qed.

(** X15.  Arming is one-shot.  In every run of the server from its
    construction, between two dispatches of the same connection there is a
    successful [register] of that connection: a connection that has been
    dispatched is not dispatched again, whatever its peer sends, until it is
    armed again. *)
Theorem X15_one_dispatch_per_arming (g : exn → nat → exn + string)
    (env : gmap nat sock) (acts : list action) (c : conn)
    (t1 t2 t3 : list event) (m1 m2 : run_mode) (f1 f2 : callback)
    (a1 a2 : list conn) :
  trace (run g acts (init_world env))
    = t1 ++ EvDispatch m1 c f1 a1 :: t2 ++ EvDispatch m2 c f2 a2 :: t3 →
  EvSelRegister c true ∈ t2.
Proof.
  intros Htr.
  destruct (selector_logged_run g acts _ (selector_logged_init env)) as [Hview Hpre].
  specialize (Hview c). rewrite Htr in Hview, Hpre.
  destruct (Hpre t1 m1 c f1 a1 _ eq_refl) as [t0 ->].
  destruct (Hpre ((t0 ++ [EvSelUnregister c true]) ++ EvDispatch m1 c f1 a1 :: t2)
              m2 c f2 a2 t3) as [t0' Heq]; [by rewrite <- !app_assoc|].
  destruct t2 as [|e t2 _] using rev_ind.
  { rewrite <- app_assoc in Heq. simpl in Heq.
    replace (t0 ++ [EvSelUnregister c true; EvDispatch m1 c f1 a1])
      with ((t0 ++ [EvSelUnregister c true]) ++ [EvDispatch m1 c f1 a1]) in Heq
      by (by rewrite <- app_assoc).
    apply app_inj_tail in Heq as [_ Heq]. done. }
  replace ((t0 ++ [EvSelUnregister c true]) ++ EvDispatch m1 c f1 a1 :: t2 ++ [e])
    with (((t0 ++ [EvSelUnregister c true]) ++ EvDispatch m1 c f1 a1 :: t2) ++ [e])
    in Heq by (by rewrite <- !app_assoc).
  apply app_inj_tail in Heq as [_ ->].
  apply elem_of_app. left.
  unfold sel_view in Hview. rewrite <- !app_assoc in Hview. simpl in Hview.
  rewrite !foldl_app in Hview. simpl in Hview.
  set (st0 := foldl (sel_step c) (Some false) t0) in *.
  assert (sel_step c (sel_step c st0 (EvSelUnregister c true))
            (EvDispatch m1 c f1 a1) = Some false
          ∨ sel_step c (sel_step c st0 (EvSelUnregister c true))
              (EvDispatch m1 c f1 a1) = None) as Hst.
  { destruct st0 as [[|]|]; simpl; rewrite ?decide_True by done; auto. }
  destruct (sel_fold_unarmed c t2 _ Hst) as [Hin|Hres]; [done|].
  exfalso. rewrite foldl_app in Hview. simpl in Hview.
  destruct Hres as [Hres|Hres]; rewrite Hres in Hview; simpl in Hview.
  - rewrite decide_True in Hview by done. simpl in Hview.
    by rewrite sel_fold_None in Hview.
  - by rewrite sel_fold_None in Hview.
Qed.

(** ** The extra properties at work *)

(** A fresh server starts once; the second [start] raises.  When the port
    is taken the first [start] raises, and the second raises all the same. *)
Lemma X1_start_witness :
  (∃ w', start None None (init_world env_two) = Return tt w'
         ∧ _server_socket w' = Listening
         ∧ start None None w' = Raise (OSError "Server can only be started once") w')
  ∧ (∃ w', start (Some (SocketError EADDRINUSE_error)) None (init_world env_two)
             = Raise (SocketError EADDRINUSE_error) w'
           ∧ trace w' = [EvStartedFlag; EvServerBind false]
           ∧ start None None w'
             = Raise (OSError "Server can only be started once") w').
Proof.
  split.
  - destruct (X1_start_only_once None None (init_world env_two))
      as (w' & _ & _ & Hagain & Hstart & _ & Hsrv); [reflexivity..|].
    exists w'. split; [done|]. split; [done|]. apply Hagain.
  - destruct (X1_start_only_once (Some (SocketError EADDRINUSE_error)) None
                (init_world env_two))
      as (w' & _ & _ & Hagain & Hstart & Htr & _); [reflexivity..|].
    exists w'. split; [done|]. split; [done|]. apply Hagain.
Defined.

(** Two passes of the admission loop over the queue [7; 8]. *)
Lemma X4_admission_witness :
  ∃ w', _handle_connects_loop 2 w_queued = Blocked w'
        ∧ _accept_queue w' = []
        ∧ hooks_of (trace w') = [on_start; on_connect 7; on_connect 8]
        ∧ dict_keys (clients w') = [7; 8].
Proof.
  destruct (X4_admission_in_queue_order 2 w_queued) as (w' & He & Hq & Hh & Hc & _);
    [reflexivity|].
  exists w'. rewrite He, Hq, Hh, Hc. vm_compute. done.
Defined.

(** The acceptor takes 7, finds nothing, takes 8. *)
Lemma X5_acceptor_witness :
  _accept [Accepted 7 peer7; NothingToAccept; Accepted 8 peer8] [] w_started
  = Blocked (set_accept_queue
               (_accept_queue w_started
                ++ accepted_of [Accepted 7 peer7; NothingToAccept; Accepted 8 peer8])
               w_started).
Proof.
  pose proof (X5_acceptor_queues_in_order
                [Accepted 7 peer7; NothingToAccept; Accepted 8 peer8] [] w_started)
    as H.
  change (_server_socket w_started) with Listening in H. cbv iota in H.
  apply H.
  - reflexivity.
  - repeat constructor.
Defined.


(** In the stopped server the dispatch loop and the admission stage just set
    their events; the acceptor cannot register the closed listening socket
    and raises. *)
Lemma X7_stop_flag_witness :
  _recv not_subscriptable [[7]] [] w_stopped
    = Return tt (world_of (event_set S_recv w_stopped))
  ∧ _accept [Accepted 7 peer7] [] w_stopped
    = Raise (ValueError "Invalid file descriptor: -1") w_stopped
  ∧ _handle_connects 1 [] w_stopped
    = Return tt (world_of (event_set S_handle_connects w_stopped)).
Proof.
  pose proof (X7_stop_flag_ends_stages not_subscriptable [[7]] [Accepted 7 peer7] 1
                [] w_stopped) as H.
  change (_server_socket w_stopped) with Closed in H. cbv iota in H.
  apply H. vm_compute. reflexivity.
Defined.

(** While a [stop] is still waiting for the stages, the listening socket is
    open, and the acceptor sets its event like the other two. *)
Example acceptor_leaves_while_stopping :
  _stop_signal w_stopping = true
  ∧ _server_socket w_stopping = Listening
  ∧ _accept [Accepted 7 peer7] [] w_stopping
    = Return tt (world_of (event_set S_accept w_stopping)).
Proof. vm_compute. done. Qed.

(** Arming client 7 and taking it out again. *)
Lemma X8_register_unregister_witness :
  ∃ w1 w2, register 7 false w_two = Return tt w1
           ∧ unregister 7 false w1 = Return tt w2
           ∧ _epoll w2 = _epoll w_two.
Proof.
  destruct (X8_register_then_unregister 7 false false w_two client7)
    as (w1 & w2 & ? & ? & ? & _).
  - vm_compute. reflexivity.
  - vm_compute. reflexivity.
  - by exists w1, w2.
Defined.

(** After the disconnect of client 7 its address is gone and client 8 is
    still there. *)
Lemma X9_after_disconnect_witness :
  ∃ w', disconnect (One 7) true "" false w_two = Return tt w'
        ∧ get_ip 7 w' = Raise (KeyError (KeyConn 7)) w'
        ∧ dict_get 8 (clients w') = dict_get 8 (clients w_two).
Proof.
  destruct (X9_after_disconnect 7 true "" false w_two)
    as (w' & ? & _ & _ & ? & H).
  - apply (bool_decide_unpack _). vm_compute. exact I.
  - vm_compute. by eexists.
  - exists w'. split; [done|]. split; [done|].
    destruct (H 8) as [? _]; [discriminate|done].
Defined.

(** A blocking send of nothing to client 8. *)
Lemma X11_send_nothing_witness :
  ∃ w', send_raw 8 [] true w_two = Return tt w'
        ∧ locked w' = locked w_two
        ∧ socks w' = socks w_two.
Proof.
  destruct (X11_send_nothing 8 true w_two client8) as (w' & ? & _ & ? & ?).
  - vm_compute. reflexivity.
  - intros _. vm_compute. intros H. inversion H.
  - by exists w'.
Defined.

(** Both armed clients are reported ready in one round. *)
Lemma X14_one_round_witness :
  ∃ keys w', _recv_loop not_subscriptable [[7; 8]] w_two_armed = Blocked w'
             ∧ fileobj <$> keys = [7; 8]
             ∧ threads w' = threads w_two_armed ++ (thread_of <$> keys)
             ∧ _epoll w' !! 7 = None.
Proof.
  destruct (X14_one_round_of_dispatch not_subscriptable [7; 8] w_two_armed)
    as (keys & w' & _ & ? & ? & _ & ? & He & _).
  - reflexivity.
  - reflexivity.
  - apply (bool_decide_unpack _). vm_compute. exact I.
  - apply Forall_forall. repeat constructor; vm_compute; by eexists.
  - exists keys, w'. split_and!; [done..|]. rewrite He. reflexivity.
Defined.

(** Client 7 is dispatched twice in [rearm_after_dispatch]; in between it
    has been armed again. *)
Lemma X15_one_dispatch_witness :
  EvSelRegister 7 true
    ∈ take 3 (drop 16 (trace (run not_subscriptable rearm_after_dispatch
                                (init_world env_two)))).
Proof.
  apply (X15_one_dispatch_per_arming not_subscriptable env_two rearm_after_dispatch 7
           (take 15 (trace (run not_subscriptable rearm_after_dispatch
                              (init_world env_two))))
           (take 3 (drop 16 (trace (run not_subscriptable rearm_after_dispatch
                                      (init_world env_two)))))
           [] Threaded Threaded Bound_recv Bound_recv [7] [7]).
  vm_compute. reflexivity.
Defined.
